(** * Connect4 search benchmark and training-file naming: a verification model

    The development follows the repository layout:

    - [src/reports/simple_benchmark.py]: the counting subclasses
      [CountingMinimax] / [CountingAlphaBeta], [generate_boards] and
      [benchmark];
    - [src/train_rl.py]: [format_games] and [read_games_from_filename];
    - the classes the benchmark imports ([Connect4Game], [MinimaxAI],
      [MinimaxABAI]) are not part of the sources at hand; they are modelled
      from the written specification and marked as such.

    Python integers are [Z]; board coordinates are [nat]; an exception is a
    value of [exn] carried by [outcome]. *)

From Stdlib Require Import ZArith List Bool Lia Arith QArith Qround Setoid Sorted.
From Stdlib Require Import Ascii String DecimalString DecimalZ DecimalFacts.
Import ListNotations.
Local Open Scope Z_scope.

(* ===================================================================== *)
(** ** Scores with the two infinities used as initial search bounds       *)
(* ===================================================================== *)

(** A score is an integer; the search initialises its running best and its
    window with minus / plus infinity. *)
Inductive ext : Type :=
| NegInf
| Fin (z : Z)
| PosInf.

Definition ext_leb (a b : ext) : bool :=
  match a, b with
  | NegInf, _ => true
  | _, PosInf => true
  | Fin x, Fin y => x <=? y
  | _, _ => false
  end.

Definition ext_ltb (a b : ext) : bool := negb (ext_leb b a).

Definition ext_max (a b : ext) : ext := if ext_leb a b then b else a.
Definition ext_min (a b : ext) : ext := if ext_leb a b then a else b.

(* ===================================================================== *)
(** ** Board model                                                        *)
(* ===================================================================== *)

Inductive player : Type := P1 | P2.

Definition other (p : player) : player :=
  match p with P1 => P2 | P2 => P1 end.

Definition player_eqb (p q : player) : bool :=
  match p, q with
  | P1, P1 | P2, P2 => true
  | _, _ => false
  end.

Inductive cell : Type :=
| Empty
| Tok (p : player).

(** The grid is a list of rows, row 0 on top, as the benchmark copies it
    into a two-dimensional array. *)
Definition board : Type := list (list cell).

Definition ROWS : nat := 6.
Definition COLS : nat := 7.

Definition empty_board : board := repeat (repeat Empty COLS) ROWS.

Definition cell_at (b : board) (r c : nat) : option cell :=
  match nth_error b r with
  | Some row => nth_error row c
  | None => None
  end.

Definition empty_at (b : board) (r c : nat) : bool :=
  match cell_at b r c with
  | Some Empty => true
  | _ => false
  end.

Definition owned_by (b : board) (p : player) (r c : nat) : bool :=
  match cell_at b r c with
  | Some (Tok q) => player_eqb p q
  | _ => false
  end.

Fixpoint set_nth {A : Type} (l : list A) (i : nat) (x : A) : list A :=
  match l, i with
  | [], _ => []
  | _ :: t, O => x :: t
  | h :: t, S j => h :: set_nth t j x
  end.

Definition set_cell (b : board) (r c : nat) (x : cell) : board :=
  match nth_error b r with
  | Some row => set_nth b r (set_nth row c x)
  | None => b
  end.

(** Modelled from the spec: [Connect4Game.is_valid_move] (board model, 4.1):
    true iff [0 <= column < 7] and the column's top cell is empty. *)
Definition is_valid_move (b : board) (c : nat) : bool :=
  (c <? COLS)%nat && empty_at b 0 c.

(** The lowest empty cell of column [c] among rows [0 .. r-1]. *)
Fixpoint lowest_empty (b : board) (c r : nat) : option nat :=
  match r with
  | O => None
  | S r' => if empty_at b r' c then Some r' else lowest_empty b c r'
  end.

(** Gravity: the token lands in the lowest empty cell of the column. *)
Definition drop (b : board) (c : nat) (p : player) : board :=
  match lowest_empty b c ROWS with
  | Some r => set_cell b r c (Tok p)
  | None => b
  end.

(** Modelled from the spec: [make_move(column, player)] (4.1): fails without
    touching the board when the move is invalid, otherwise places the
    token. *)
Definition make_move (b : board) (c : nat) (p : player) : option board :=
  if is_valid_move b c then Some (drop b c p) else None.

Definition columns : list nat := seq 0 COLS.
Definition rows : list nat := seq 0 ROWS.

(** Four cells in a line, all owned by [p]. *)
Definition line4 (b : board) (p : player)
    (r0 c0 r1 c1 r2 c2 r3 c3 : nat) : bool :=
  if owned_by b p r0 c0 then
    if owned_by b p r1 c1 then
      if owned_by b p r2 c2 then owned_by b p r3 c3 else false
    else false
  else false.

(** Four in a row starting at [(r, c)]: to the right, downwards, and along
    the two diagonals. *)
Definition four_from (b : board) (p : player) (r c : nat) : bool :=
  if line4 b p r c r (c + 1) r (c + 2) r (c + 3) then true
  else if line4 b p r c (r + 1) c (r + 2) c (r + 3) c then true
  else if line4 b p r c (r + 1) (c + 1) (r + 2) (c + 2) (r + 3) (c + 3)
       then true
  else line4 b p r (c + 3) (r + 1) (c + 2) (r + 2) (c + 1) (r + 3) c.

Definition has_four (b : board) (p : player) : bool :=
  existsb (fun r => existsb (fun c => four_from b p r c) columns) rows.

Definition is_full (b : board) : bool :=
  forallb (fun c => negb (is_valid_move b c)) columns.

Inductive result : Type :=
| NoWinner
| Winner (p : player)
| Draw.

(** Modelled from the spec: [check_winner] (4.1): four in a row in any of
    the four orientations wins; a full board without a winner is a draw.
    On a board holding a line for each player (unreachable in play) the
    scan reports the first seat. *)
Definition check_winner (b : board) : result :=
  if has_four b P1 then Winner P1
  else if has_four b P2 then Winner P2
  else if is_full b then Draw
  else NoWinner.

Definition is_game_over (b : board) : bool :=
  match check_winner b with
  | NoWinner => false
  | _ => true
  end.

(** Well-formed boards: six rows of seven cells, every column filled from
    the bottom without gaps (no token sits above an empty cell). *)
Definition dims_ok (b : board) : bool :=
  (List.length b =? ROWS)%nat
  && forallb (fun row => (List.length row =? COLS)%nat) b.

Definition gravity_ok (b : board) : bool :=
  forallb (fun c =>
    forallb (fun r => empty_at b r c || negb (empty_at b (S r) c)) rows) columns.

Definition well_formed (b : board) : bool := dims_ok b && gravity_ok b.

(* ===================================================================== *)
(** ** Exceptions and instance state                                      *)
(* ===================================================================== *)

Inductive exn : Type :=
| RecursionError
| ZeroDivisionError
| ValueError
| OverflowError.

Inductive outcome (A : Type) : Type :=
| Ok (a : A)
| Raise (e : exn).
Arguments Ok {A} a.
Arguments Raise {A} e.

(** The attribute [nodes] of a counting instance, together with three
    observation-only tallies kept beside it: [calls] counts the dispatches
    of the search method, [cutoffs] the times the test [alpha >= beta]
    succeeded, [pruned] the sibling moves left unexplored by those
    cut-offs. *)
Record counters : Type := mk_counters
  { nodes : Z; calls : Z; cutoffs : Z; pruned : Z }.

(** [self.nodes = 0] in [__init__]. *)
Definition fresh : counters :=
  {| nodes := 0; calls := 0; cutoffs := 0; pruned := 0 |}.

(** [self.nodes += 1]. *)
Definition incr_nodes (s : counters) : counters :=
  {| nodes := nodes s + 1; calls := calls s;
     cutoffs := cutoffs s; pruned := pruned s |}.

Definition log_call (s : counters) : counters :=
  {| nodes := nodes s; calls := calls s + 1;
     cutoffs := cutoffs s; pruned := pruned s |}.

Definition log_cutoff (skipped : nat) (s : counters) : counters :=
  {| nodes := nodes s; calls := calls s;
     cutoffs := cutoffs s + 1; pruned := pruned s + Z.of_nat skipped |}.

(* ===================================================================== *)
(** ** Methods that recurse through [self]                                *)
(* ===================================================================== *)

(** The body of an inherited method, as far as a subclass can observe it:
    it returns, or it calls [self.<method>(x)] and continues with the
    answer, or it passes a pruning test ([Cutoff k]: [alpha >= beta] held
    with [k] sibling moves left). The base class knows nothing of the
    attribute a subclass adds, so a body has no other access to the
    instance state. *)
Inductive proc (Arg Res A : Type) : Type :=
| Ret (a : A)
| Self (x : Arg) (k : Res -> proc Arg Res A)
| Cutoff (skipped : nat) (p : proc Arg Res A).
Arguments Ret {Arg Res A} a.
Arguments Self {Arg Res A} x k.
Arguments Cutoff {Arg Res A} skipped p.

Section Counting.

Context {Arg Res : Type}.

(** [interp self p s]: run the body [p] from instance state [s], every
    [self] call being dispatched to [self]. *)
Fixpoint interp {A : Type}
    (self : Arg -> counters -> outcome (Res * counters))
    (p : proc Arg Res A) (s : counters) : outcome (A * counters) :=
  match p with
  | Ret a => Ok (a, s)
  | Self x k =>
      match self x s with
      | Ok (r, s') => interp self (k r) s'
      | Raise e => Raise e
      end
  | Cutoff skipped p' => interp self p' (log_cutoff skipped s)
  end.

(** The inherited search method ([super().minimax] / [super().minimax_ab]). *)
Variable super_search : Arg -> proc Arg Res Res.

(** [CountingMinimax.minimax] and [CountingAlphaBeta.minimax_ab]
    (simple_benchmark.py, lines 17-19 and 25-27):
    [self.nodes += 1; return super().<method>(...)].
    [stack] bounds the nesting of calls; exhausting it is the
    interpreter's [RecursionError]. *)
Fixpoint counting_search (stack : nat) (x : Arg) (s : counters)
    : outcome (Res * counters) :=
  match stack with
  | O => Raise RecursionError
  | S stack' =>
      interp (counting_search stack') (super_search x) (incr_nodes (log_call s))
  end.

(** A method the counting subclass inherits unchanged (here [get_move]):
    its [self] calls reach the overriding search method. *)
Definition counting_inherited {A : Type} (stack : nat)
    (body : proc Arg Res A) (s : counters) : outcome (A * counters) :=
  interp (counting_search stack) body s.


End Counting.

(* ===================================================================== *)
(** ** Search engine                                                      *)
(* ===================================================================== *)

(** What a search call answers: the best column found at this node ([None]
    at a leaf) and the score. *)
Definition answer : Type := (option nat * ext)%type.

Definition mm_arg : Type := (board * Z * bool)%type.
Definition ab_arg : Type := (board * Z * bool * ext * ext)%type.

Section Engine.

(** Modelled from the spec: the heuristic evaluator (4.2),
    [evaluate(board, player) -> integer score], deterministic and
    read-only; its weights are not fixed by the specification. *)
Variable evaluate : board -> player -> Z.

(** Modelled from the spec: the fixed deterministic order in which a node
    tries its columns (4.3; the specification leaves the choice between
    ascending and centre-out open). *)
Variable move_order : list nat.

Definition legal_moves (b : board) : list nat :=
  filter (is_valid_move b) move_order.

(** Modelled from the spec: [MinimaxAI.minimax] (4.3), maximizing node:
    apply each legal move for the engine's own seat, recurse with
    [depth - 1] and the flag flipped, keep the best score and the first
    column that achieved it. *)
Fixpoint mm_max_loop (pid : player) (b : board) (depth : Z)
    (cols : list nat) (best_col : option nat) (best : ext)
    : proc mm_arg answer answer :=
  match cols with
  | [] => Ret (best_col, best)
  | c :: cs =>
      Self (drop b c pid, depth - 1, false) (fun r =>
        if ext_ltb best (snd r)
        then mm_max_loop pid b depth cs (Some c) (snd r)
        else mm_max_loop pid b depth cs best_col best)
  end.

(** Minimizing node: the opponent moves, the smallest score is kept. *)
Fixpoint mm_min_loop (pid : player) (b : board) (depth : Z)
    (cols : list nat) (best_col : option nat) (best : ext)
    : proc mm_arg answer answer :=
  match cols with
  | [] => Ret (best_col, best)
  | c :: cs =>
      Self (drop b c (other pid), depth - 1, true) (fun r =>
        if ext_ltb (snd r) best
        then mm_min_loop pid b depth cs (Some c) (snd r)
        else mm_min_loop pid b depth cs best_col best)
  end.

(** Modelled from the spec: [MinimaxAI.minimax(board, depth, is_maximizing)]
    (4.3). A terminal board or an exhausted depth is evaluated at once;
    section 7 asks that every depth [<= 0] be treated as exhausted. *)
Definition MinimaxAI_minimax (pid : player) (x : mm_arg)
    : proc mm_arg answer answer :=
  let '(b, depth, is_maximizing) := x in
  if is_game_over b || (depth <=? 0) then Ret (None, Fin (evaluate b pid))
  else if is_maximizing
       then mm_max_loop pid b depth (legal_moves b) None NegInf
       else mm_min_loop pid b depth (legal_moves b) None PosInf.

(** Modelled from the spec: the root call wrapped by [MinimaxAI.get_move]
    (4.3): one maximizing search at the configured depth. *)
Definition MinimaxAI_root (depth : Z) (b : board)
    : proc mm_arg answer answer :=
  Self (b, depth, true) (fun r => Ret r).

(** Modelled from the spec: [MinimaxAI.get_move(board) -> column]; [None] is
    the sentinel for "no move". *)
Definition MinimaxAI_get_move (depth : Z) (b : board)
    : proc mm_arg answer (option nat) :=
  Self (b, depth, true) (fun r => Ret (fst r)).

(** Modelled from the spec: [MinimaxABAI.minimax_ab] (4.4), maximizing node:
    as above, and after each child [alpha] is raised to the returned score;
    once [alpha >= beta] the remaining siblings are skipped. *)
Fixpoint ab_max_loop (pid : player) (b : board) (depth : Z)
    (cols : list nat) (best_col : option nat) (best alpha beta : ext)
    : proc ab_arg answer answer :=
  match cols with
  | [] => Ret (best_col, best)
  | c :: cs =>
      Self (drop b c pid, depth - 1, false, alpha, beta) (fun r =>
        let best_col' := if ext_ltb best (snd r) then Some c else best_col in
        let best' := if ext_ltb best (snd r) then snd r else best in
        let alpha' := ext_max alpha (snd r) in
        if ext_leb beta alpha'
        then Cutoff (List.length cs) (Ret (best_col', best'))
        else ab_max_loop pid b depth cs best_col' best' alpha' beta)
  end.

(** Minimizing node: [beta] is lowered to the returned score. *)
Fixpoint ab_min_loop (pid : player) (b : board) (depth : Z)
    (cols : list nat) (best_col : option nat) (best alpha beta : ext)
    : proc ab_arg answer answer :=
  match cols with
  | [] => Ret (best_col, best)
  | c :: cs =>
      Self (drop b c (other pid), depth - 1, true, alpha, beta) (fun r =>
        let best_col' := if ext_ltb (snd r) best then Some c else best_col in
        let best' := if ext_ltb (snd r) best then snd r else best in
        let beta' := ext_min beta (snd r) in
        if ext_leb beta' alpha
        then Cutoff (List.length cs) (Ret (best_col', best'))
        else ab_min_loop pid b depth cs best_col' best' alpha beta')
  end.

(** Modelled from the spec:
    [MinimaxABAI.minimax_ab(board, depth, is_maximizing, alpha, beta)]. *)
Definition MinimaxABAI_minimax_ab (pid : player) (x : ab_arg)
    : proc ab_arg answer answer :=
  let '(b, depth, is_maximizing, alpha, beta) := x in
  if is_game_over b || (depth <=? 0) then Ret (None, Fin (evaluate b pid))
  else if is_maximizing
       then ab_max_loop pid b depth (legal_moves b) None NegInf alpha beta
       else ab_min_loop pid b depth (legal_moves b) None PosInf alpha beta.

(** Modelled from the spec: the root call of the pruning variant, window
    [(-oo, +oo)]. *)
Definition MinimaxABAI_root (depth : Z) (b : board)
    : proc ab_arg answer answer :=
  Self (b, depth, true, NegInf, PosInf) (fun r => Ret r).

Definition MinimaxABAI_get_move (depth : Z) (b : board)
    : proc ab_arg answer (option nat) :=
  Self (b, depth, true, NegInf, PosInf) (fun r => Ret (fst r)).

(** *** The two counting classes of the benchmark *)

(** An instance: the configuration given to [__init__] and the counter. *)
Record ai : Type := mk_ai
  { player_id : player; depth_of : Z; state : counters }.

(** [CountingMinimax(player_id, depth)] / [CountingAlphaBeta(player_id, depth)]. *)
Definition new_ai (pid : player) (depth : Z) : ai :=
  {| player_id := pid; depth_of := depth; state := fresh |}.

Definition CountingMinimax_minimax (stack : nat) (pid : player)
    : mm_arg -> counters -> outcome (answer * counters) :=
  counting_search (MinimaxAI_minimax pid) stack.

Definition CountingAlphaBeta_minimax_ab (stack : nat) (pid : player)
    : ab_arg -> counters -> outcome (answer * counters) :=
  counting_search (MinimaxABAI_minimax_ab pid) stack.

Definition with_state (a : ai) (s : counters) : ai :=
  {| player_id := player_id a; depth_of := depth_of a; state := s |}.

(** [ai.get_move(board)] on a [CountingMinimax] instance. *)
Definition CountingMinimax_get_move (stack : nat) (a : ai) (b : board)
    : outcome (option nat * ai) :=
  match counting_inherited (MinimaxAI_minimax (player_id a)) stack
          (MinimaxAI_get_move (depth_of a) b) (state a) with
  | Ok (c, s) => Ok (c, with_state a s)
  | Raise e => Raise e
  end.

(** [ai.get_move(board)] on a [CountingAlphaBeta] instance. *)
Definition CountingAlphaBeta_get_move (stack : nat) (a : ai) (b : board)
    : outcome (option nat * ai) :=
  match counting_inherited (MinimaxABAI_minimax_ab (player_id a)) stack
          (MinimaxABAI_get_move (depth_of a) b) (state a) with
  | Ok (c, s) => Ok (c, with_state a s)
  | Raise e => Raise e
  end.

(** The root search itself (column and score), for comparing variants. *)
Definition CountingMinimax_root (stack : nat) (a : ai) (b : board)
    : outcome (answer * ai) :=
  match counting_inherited (MinimaxAI_minimax (player_id a)) stack
          (MinimaxAI_root (depth_of a) b) (state a) with
  | Ok (r, s) => Ok (r, with_state a s)
  | Raise e => Raise e
  end.

Definition CountingAlphaBeta_root (stack : nat) (a : ai) (b : board)
    : outcome (answer * ai) :=
  match counting_inherited (MinimaxABAI_minimax_ab (player_id a)) stack
          (MinimaxABAI_root (depth_of a) b) (state a) with
  | Ok (r, s) => Ok (r, with_state a s)
  | Raise e => Raise e
  end.

End Engine.

(* ===================================================================== *)
(** ** What a search computes: value and cost of a call                   *)
(* ===================================================================== *)

(** The change a call makes to the counters is described by a [counters]
    value of its own and added field by field. *)
Definition plus (s d : counters) : counters :=
  {| nodes := nodes s + nodes d; calls := calls s + calls d;
     cutoffs := cutoffs s + cutoffs d; pruned := pruned s + pruned d |}.

Definition zero : counters := fresh.
Definition one_call : counters :=
  {| nodes := 1; calls := 1; cutoffs := 0; pruned := 0 |}.
Definition one_cutoff (skipped : nat) : counters :=
  {| nodes := 0; calls := 0; cutoffs := 1; pruned := Z.of_nat skipped |}.

Section Denotation.

Variable evaluate : board -> player -> Z.
Variable move_order : list nat.
Variable pid : player.

(** The scan of a maximizing (respectively minimizing) node over the
    answers [child c] of its children. *)
Fixpoint scan_max (child : nat -> answer * counters) (cols : list nat)
    (best_col : option nat) (best : ext) : answer * counters :=
  match cols with
  | [] => ((best_col, best), zero)
  | c :: cs =>
      let '(r, d) := child c in
      let '(a, d') :=
        if ext_ltb best (snd r) then scan_max child cs (Some c) (snd r)
        else scan_max child cs best_col best in
      (a, plus d d')
  end.

Fixpoint scan_min (child : nat -> answer * counters) (cols : list nat)
    (best_col : option nat) (best : ext) : answer * counters :=
  match cols with
  | [] => ((best_col, best), zero)
  | c :: cs =>
      let '(r, d) := child c in
      let '(a, d') :=
        if ext_ltb (snd r) best then scan_min child cs (Some c) (snd r)
        else scan_min child cs best_col best in
      (a, plus d d')
  end.

(** Value and cost of [minimax] with [n] plies left. *)
Fixpoint mm (n : nat) (b : board) (is_maximizing : bool)
    : answer * counters :=
  match n with
  | O => ((None, Fin (evaluate b pid)), one_call)
  | S n' =>
      if is_game_over b then ((None, Fin (evaluate b pid)), one_call)
      else
        let '(a, d) :=
          if is_maximizing
          then scan_max (fun c => mm n' (drop b c pid) false)
                        (legal_moves move_order b) None NegInf
          else scan_min (fun c => mm n' (drop b c (other pid)) true)
                        (legal_moves move_order b) None PosInf in
        (a, plus one_call d)
  end.

Fixpoint ab_scan_max (child : nat -> ext -> ext -> answer * counters)
    (cols : list nat) (best_col : option nat) (best alpha beta : ext)
    : answer * counters :=
  match cols with
  | [] => ((best_col, best), zero)
  | c :: cs =>
      let '(r, d) := child c alpha beta in
      let best_col' := if ext_ltb best (snd r) then Some c else best_col in
      let best' := if ext_ltb best (snd r) then snd r else best in
      let alpha' := ext_max alpha (snd r) in
      if ext_leb beta alpha'
      then ((best_col', best'), plus d (one_cutoff (List.length cs)))
      else
        let '(a, d') := ab_scan_max child cs best_col' best' alpha' beta in
        (a, plus d d')
  end.

Fixpoint ab_scan_min (child : nat -> ext -> ext -> answer * counters)
    (cols : list nat) (best_col : option nat) (best alpha beta : ext)
    : answer * counters :=
  match cols with
  | [] => ((best_col, best), zero)
  | c :: cs =>
      let '(r, d) := child c alpha beta in
      let best_col' := if ext_ltb (snd r) best then Some c else best_col in
      let best' := if ext_ltb (snd r) best then snd r else best in
      let beta' := ext_min beta (snd r) in
      if ext_leb beta' alpha
      then ((best_col', best'), plus d (one_cutoff (List.length cs)))
      else
        let '(a, d') := ab_scan_min child cs best_col' best' alpha beta' in
        (a, plus d d')
  end.

(** Value and cost of [minimax_ab] with [n] plies left. *)
Fixpoint ab (n : nat) (b : board) (is_maximizing : bool) (alpha beta : ext)
    : answer * counters :=
  match n with
  | O => ((None, Fin (evaluate b pid)), one_call)
  | S n' =>
      if is_game_over b then ((None, Fin (evaluate b pid)), one_call)
      else
        let '(a, d) :=
          if is_maximizing
          then ab_scan_max (fun c => ab n' (drop b c pid) false)
                           (legal_moves move_order b) None NegInf alpha beta
          else ab_scan_min (fun c => ab n' (drop b c (other pid)) true)
                           (legal_moves move_order b) None PosInf alpha beta in
        (a, plus one_call d)
  end.

End Denotation.

(* ===================================================================== *)
(** ** Sample positions and a sample evaluator                            *)
(* ===================================================================== *)

(** Rows written with 0 for an empty cell, 1 and 2 for the two seats. *)
Definition cells (l : list nat) : list cell :=
  map (fun k => match k with
                | O => Empty
                | S O => Tok P1
                | _ => Tok P2
                end) l.

Definition board_of (rows : list (list nat)) : board := map cells rows.

(** A position with one free cell in each of the columns 0, 1 and 2 and
    no line of four, whatever is played into one or two of those cells. *)
Definition three_left : board := board_of
  [[0; 0; 0; 1; 2; 2; 1];
   [1; 1; 2; 2; 2; 1; 2];
   [2; 2; 1; 2; 2; 2; 1];
   [1; 1; 1; 2; 1; 1; 1];
   [2; 1; 1; 1; 2; 1; 2];
   [2; 1; 2; 1; 2; 1; 2]]%nat.

(** The same position after the first seat has filled column 2. *)
Definition two_left : board := drop three_left 2 P1.

(** Tokens of [p] in the centre column. *)
Definition centre_count (b : board) (p : player) : Z :=
  Z.of_nat (List.length (filter (fun r => owned_by b p r 3) rows)).

(** An evaluator of the shape section 4.2 describes, for concrete runs: a
    decided game outweighs every heuristic value, otherwise control of the
    centre column counts. *)
Definition simple_evaluate (b : board) (p : player) : Z :=
  match check_winner b with
  | Winner q => if player_eqb p q then 1000000 else -1000000
  | _ => centre_count b p - centre_count b (other p)
  end.

(* ===================================================================== *)
(** ** Benchmark harness (src/reports/simple_benchmark.py)                *)
(* ===================================================================== *)

(** *** The game object *)

Record game : Type := mk_game
  { grid : board; current_player : player; game_over : bool }.

(** Modelled from the spec: [Connect4Game(...)]: an empty board, the first
    seat to move, the game not over. *)
Definition new_game : game :=
  {| grid := empty_board; current_player := P1; game_over := false |}.

(** Modelled from the spec: [game.is_valid_move(column)]. *)
Definition game_is_valid_move (g : game) (c : nat) : bool :=
  is_valid_move (grid g) c.

(** Modelled from the spec: [game.make_move(column)]: a no-op on an invalid
    column; otherwise the mover's token is placed, the outcome is
    re-examined and the turn passes. *)
Definition game_make_move (g : game) (c : nat) : game :=
  match make_move (grid g) c (current_player g) with
  | None => g
  | Some b' =>
      {| grid := b';
         current_player := other (current_player g);
         game_over := is_game_over b' |}
  end.

(** *** The random source *)

(** The module [random]: an arbitrary sequence of raw draws, consumed in
    order. *)
Record rng : Type := mk_rng { draws : nat -> nat; drawn : nat }.

Definition rand (A : Type) : Type := rng -> A * rng.

(** [random.randint(lo, hi)]: an integer [N] with [lo <= N <= hi]. *)
Definition randint (lo hi : Z) : rand Z :=
  fun g =>
    (lo + Z.of_nat (draws g (drawn g)) mod (hi - lo + 1),
     {| draws := draws g; drawn := S (drawn g) |}).

(** *** [generate_boards] (lines 29-38) *)

(** One pass of the inner loop (lines 34-35). The column tested and the
    column played are two separate draws; nothing is drawn once the game
    is over, since [and] does not evaluate its second operand then. *)
Definition sample_step (g : game) : rand game :=
  fun r =>
    if game_over g then (g, r)
    else
      let (c1, r1) := randint 0 6 r in
      if game_is_valid_move g (Z.to_nat c1)
      then let (c2, r2) := randint 0 6 r1 in
           (game_make_move g (Z.to_nat c2), r2)
      else (g, r1).

Fixpoint sample_loop (k : nat) (g : game) : rand game :=
  fun r =>
    match k with
    | O => (g, r)
    | S k' => let (g', r') := sample_step g r in sample_loop k' g' r'
    end.

(** One pass of the outer loop (lines 32-37): a fresh game, between 8 and
    15 passes of the inner loop, and the board kept only if the game is
    not over. *)
Definition sample : rand (option board) :=
  fun r =>
    let (k, r1) := randint 8 15 r in
    let (g, r2) := sample_loop (Z.to_nat k) new_game r1 in
    (if game_over g then None else Some (grid g), r2).

Fixpoint generate_boards_loop (n : nat) (boards : list board)
    : rand (list board) :=
  fun r =>
    match n with
    | O => (boards, r)
    | S n' =>
        let (ob, r') := sample r in
        generate_boards_loop n'
          (match ob with Some b => boards ++ [b] | None => boards end) r'
    end.

Definition generate_boards (n : Z) : rand (list board) :=
  generate_boards_loop (Z.to_nat n) [].

(** A sequence of columns played from the empty board, each move legal and
    made while the game is still running. *)
Fixpoint play (g : game) (moves : list nat) : option game :=
  match moves with
  | [] => Some g
  | c :: cs =>
      if game_over g then None
      else if game_is_valid_move g c then play (game_make_move g c) cs
      else None
  end.

(** *** Time and arithmetic on measurements *)

(** Wall-clock readings and the averages derived from them are floating
    point numbers in the source; they are taken here as exact rationals,
    so what is stated about them concerns the formulas computed, not the
    rounding of each operation. *)
Record clock : Type := mk_clock { ticks : nat -> Q; reads : nat }.

(** [round(x, digits)]: to the nearest multiple of [10^-digits], ties to
    even. *)
Definition round_half_even (x : Q) : Z :=
  let f := Qfloor x in
  match Qcompare (x - inject_Z f) (1 # 2) with
  | Lt => f
  | Gt => f + 1
  | Eq => if Z.even f then f else f + 1
  end.

Definition py_round (x : Q) (digits : nat) : Q :=
  (inject_Z (round_half_even (x * inject_Z (10 ^ Z.of_nat digits)))
   / inject_Z (10 ^ Z.of_nat digits))%Q.

(** [int(x)]: truncation towards zero. *)
Definition py_int (x : Q) : Z := Z.quot (Qnum x) (Zpos (Qden x)).

(** *** The benchmark run *)

Inductive variant : Type := Minimax | AlphaBeta.

(** One timed [get_move] call, as observed from outside: which variant, at
    which depth, on which board, the elapsed time added to the running
    total and the counter reading added to the running node total. *)
Record measurement : Type := mk_measurement
  { who : variant; at_depth : Z; on_board : board;
    elapsed : Q; counted : Z }.

Record world : Type := mk_world
  { entropy : rng; wall : clock; journal : list measurement }.

(** Computations of the harness: they read the clock and the random
    source, may raise, and leave a journal of the timed calls. *)
Definition harness (A : Type) : Type := world -> outcome A * world.

Definition ret {A : Type} (a : A) : harness A := fun w => (Ok a, w).

Definition bind {A B : Type} (m : harness A) (f : A -> harness B)
    : harness B :=
  fun w =>
    match m w with
    | (Ok a, w') => f a w'
    | (Raise e, w') => (Raise e, w')
    end.

Notation "x <- m ;; k" := (bind m (fun x => k))
  (at level 61, m at next level, right associativity).
Notation "m ;;; k" := (bind m (fun _ => k))
  (at level 61, right associativity).

Definition raise {A : Type} (e : exn) : harness A := fun w => (Raise e, w).

Definition lift {A : Type} (o : outcome A) : harness A := fun w => (o, w).

Definition with_random {A : Type} (m : rand A) : harness A :=
  fun w =>
    let (a, r) := m (entropy w) in
    (Ok a, {| entropy := r; wall := wall w; journal := journal w |}).

(** [time.time()]. *)
Definition time_time : harness Q :=
  fun w =>
    (Ok (ticks (wall w) (reads (wall w))),
     {| entropy := entropy w;
        wall := {| ticks := ticks (wall w); reads := S (reads (wall w)) |};
        journal := journal w |}).

Definition note (m : measurement) : harness unit :=
  fun w =>
    (Ok tt,
     {| entropy := entropy w; wall := wall w; journal := journal w ++ [m] |}).

(** [x / y] on numbers: [ZeroDivisionError] when [y] is zero. *)
Definition true_div (x y : Q) : harness Q :=
  if Qeq_bool y 0 then raise ZeroDivisionError else ret (x / y)%Q.

(** [for x in xs: acc = body(x, acc)]. *)
Fixpoint for_each {A S : Type} (xs : list A) (body : A -> S -> harness S)
    (acc : S) : harness S :=
  match xs with
  | [] => ret acc
  | x :: rest => acc' <- body x acc ;; for_each rest body acc'
  end.

(** The four accumulators of lines 45-46. *)
Record totals : Type := mk_totals
  { minimax_time : Q; alphabeta_time : Q;
    minimax_nodes : Z; alphabeta_nodes : Z }.

(** One row of the CSV report (lines 69-77). *)
Record row : Type := mk_row
  { Depth : Z;
    Minimax_Time_Sec : Q;
    AlphaBeta_Time_Sec : Q;
    Speedup : Q;
    Minimax_Nodes : Z;
    AlphaBeta_Nodes : Z;
    Nodes_Saved_Percent : Q }.

Section Benchmark.

Variable evaluate : board -> player -> Z.
Variable move_order : list nat.

(** The interpreter's bound on nested calls. *)
Variable recursion_limit : nat.

(** Lines 49-61: both variants, each on a fresh instance for seat 1, are
    timed on the board. *)
Definition bench_board (depth : Z) (b : board) (t : totals) : harness totals :=
  start <- time_time ;;
  r1 <- lift (CountingMinimax_get_move evaluate move_order recursion_limit
                (new_ai P1 depth) b) ;;
  stop <- time_time ;;
  let ai1 := snd r1 in
  let t1 := {| minimax_time := (minimax_time t + (stop - start))%Q;
               alphabeta_time := alphabeta_time t;
               minimax_nodes := minimax_nodes t + nodes (state ai1);
               alphabeta_nodes := alphabeta_nodes t |} in
  note {| who := Minimax; at_depth := depth; on_board := b;
          elapsed := (stop - start)%Q; counted := nodes (state ai1) |} ;;;
  start' <- time_time ;;
  r2 <- lift (CountingAlphaBeta_get_move evaluate move_order recursion_limit
                (new_ai P1 depth) b) ;;
  stop' <- time_time ;;
  let ai2 := snd r2 in
  note {| who := AlphaBeta; at_depth := depth; on_board := b;
          elapsed := (stop' - start')%Q; counted := nodes (state ai2) |} ;;;
  ret {| minimax_time := minimax_time t1;
         alphabeta_time := (alphabeta_time t1 + (stop' - start'))%Q;
         minimax_nodes := minimax_nodes t1;
         alphabeta_nodes := alphabeta_nodes t1 + nodes (state ai2) |}.

Definition no_totals : totals :=
  {| minimax_time := 0; alphabeta_time := 0;
     minimax_nodes := 0; alphabeta_nodes := 0 |}.

(** Lines 64-67: the four averages, each a division by [len(boards)]. *)
Definition averages (n : nat) (t : totals) : harness (Q * Q * Q * Q) :=
  let len := inject_Z (Z.of_nat n) in
  avg_minimax_time <- true_div (minimax_time t) len ;;
  avg_alphabeta_time <- true_div (alphabeta_time t) len ;;
  avg_minimax_nodes <- true_div (inject_Z (minimax_nodes t)) len ;;
  avg_alphabeta_nodes <- true_div (inject_Z (alphabeta_nodes t)) len ;;
  ret (avg_minimax_time, avg_alphabeta_time,
       avg_minimax_nodes, avg_alphabeta_nodes).

(** Lines 69-77: the row built from the averages. *)
Definition make_row (depth : Z) (avgs : Q * Q * Q * Q) : harness row :=
  let '(avg_minimax_time, avg_alphabeta_time,
        avg_minimax_nodes, avg_alphabeta_nodes) := avgs in
  speedup <- true_div avg_minimax_time avg_alphabeta_time ;;
  saved <- true_div (avg_minimax_nodes - avg_alphabeta_nodes)%Q
                    avg_minimax_nodes ;;
  ret {| Depth := depth;
         Minimax_Time_Sec := py_round avg_minimax_time 4;
         AlphaBeta_Time_Sec := py_round avg_alphabeta_time 4;
         Speedup := py_round speedup 1;
         Minimax_Nodes := py_int avg_minimax_nodes;
         AlphaBeta_Nodes := py_int avg_alphabeta_nodes;
         Nodes_Saved_Percent := py_round (saved * 100)%Q 1 |}.

Definition summarize (depth : Z) (n : nat) (t : totals) : harness row :=
  avgs <- averages n t ;; make_row depth avgs.

(** Lines 44-77, one depth. *)
Definition bench_depth (boards : list board) (depth : Z)
    (results : list row) : harness (list row) :=
  t <- for_each boards (bench_board depth) no_totals ;;
  r <- summarize depth (List.length boards) t ;;
  ret (results ++ [r]).

(** [benchmark()] (lines 40-77); the rows returned are those written to
    the CSV file. *)
Definition benchmark : harness (list row) :=
  boards <- with_random (generate_boards 30) ;;
  for_each [3; 4; 5] (bench_depth boards) [].

End Benchmark.










(** Draws under which every sampled game is won with its seventh move. *)
Definition losing_draws (i : nat) : nat :=
  nth (i mod 15) [0; 0; 0; 0; 1; 0; 0; 0; 1; 0; 0; 0; 1; 0; 0]%nat 0%nat.

(* ===================================================================== *)
(** ** Model file names (src/train_rl.py)                                 *)
(* ===================================================================== *)

(** *** Strings *)

Definition is_digit (c : ascii) : bool :=
  let n := nat_of_ascii c in (48 <=? n)%nat && (n <=? 57)%nat.

Fixpoint all_digits (s : string) : bool :=
  match s with
  | EmptyString => true
  | String c r => is_digit c && all_digits r
  end.

Fixpoint contains (c : ascii) (s : string) : bool :=
  match s with
  | EmptyString => false
  | String d r => Ascii.eqb d c || contains c r
  end.

(** [s.split(sep)] for a one-character separator. *)
Fixpoint split_on (sep : ascii) (s : string) : list string :=
  match s with
  | EmptyString => [EmptyString]
  | String c r =>
      if Ascii.eqb c sep then EmptyString :: split_on sep r
      else match split_on sep r with
           | h :: t => String c h :: t
           | [] => [String c EmptyString]
           end
  end.

(** [os.path.basename(path)]: what follows the last slash. *)
Fixpoint basename (path : string) : string :=
  match path with
  | EmptyString => EmptyString
  | String c r =>
      if Ascii.eqb c "/" || contains "/" r then basename r else path
  end.

(** [s.replace(".pt", empty)]: every occurrence is removed, scanning from the
    left. *)
Fixpoint replace_pt (s : string) : string :=
  match s with
  | EmptyString => EmptyString
  | String c r =>
      if Ascii.eqb c "." then
        match r with
        | String c1 (String c2 r2) =>
            if Ascii.eqb c1 "p" && Ascii.eqb c2 "t" then replace_pt r2
            else String c (replace_pt r)
        | _ => String c (replace_pt r)
        end
      else String c (replace_pt r)
  end.

Fixpoint last_char (s : string) : option ascii :=
  match s with
  | EmptyString => None
  | String c EmptyString => Some c
  | String _ r => last_char r
  end.

(** [s.endswith(c)] for a one-character suffix. *)
Definition endswith (s : string) (c : ascii) : bool :=
  match last_char s with
  | Some d => Ascii.eqb d c
  | None => false
  end.

(** [s[:-1]]. *)
Fixpoint drop_last (s : string) : string :=
  match s with
  | EmptyString => EmptyString
  | String _ EmptyString => EmptyString
  | String c r => String c (drop_last r)
  end.

(** [str(n)] for an integer. *)
Definition str (n : Z) : string := NilZero.string_of_int (Z.to_int n).

(** [int(s)] on a string: an optional sign and decimal digits; anything
    else is a [ValueError]. (Python also accepts surrounding blanks and
    single underscores between digits; such literals are outside this
    model.) *)
Definition py_int_of_string (s : string) : outcome Z :=
  let unsigned (t : string) : option Z :=
    if all_digits t then option_map Z.of_uint (NilZero.uint_of_string t)
    else None in
  let parsed :=
    match s with
    | String c r =>
        if Ascii.eqb c "-" then option_map Z.opp (unsigned r)
        else if Ascii.eqb c "+" then unsigned r
        else unsigned s
    | EmptyString => None
    end in
  match parsed with
  | Some n => Ok n
  | None => Raise ValueError
  end.

(** *** Floating point, as far as the two functions use it *)

(** A non-negative double: [m * 2^e], or infinity. Only values reached by
    the correctly rounded operations below occur; subnormal precision is
    not modelled (no value this small survives the conversions to text or
    to an integer made here). *)
Inductive f64 : Type :=
| Finite (m e : Z)
| Infinity.

(** [num / den] rounded to the nearest integer, ties to even. *)
Definition round_ratio_half_even (num den : Z) : Z :=
  let q := num / den in
  match 2 * (num mod den) ?= den with
  | Lt => q
  | Gt => q + 1
  | Eq => if Z.even q then q else q + 1
  end.

(** The fraction [a / b] divided by [2^e], as a fraction again. *)
Definition scaled (a b e : Z) : Z * Z :=
  if 0 <=? e then (a, b * 2 ^ e) else (a * 2 ^ (- e), b).

(** The double nearest to the quotient [a / b] of two positive integers,
    ties to even: the exponent is chosen so that the quotient has 53
    bits. *)
Definition nearest (a b : Z) : f64 :=
  if a <=? 0 then Finite 0 0
  else
    let e0 := Z.log2 a - Z.log2 b - 53 in
    let q0 := fst (scaled a b e0) / snd (scaled a b e0) in
    let e := if 2 ^ 53 <=? q0 then e0 + 1 else e0 in
    let m := round_ratio_half_even (fst (scaled a b e)) (snd (scaled a b e)) in
    if (0 <=? e) && (2 ^ 1024 <=? m * 2 ^ e) then Infinity else Finite m e.

(** [x * k] for a positive integer constant [k] that is itself a double. *)
Definition f64_mul (x : f64) (k : Z) : f64 :=
  match x with
  | Infinity => Infinity
  | Finite m e =>
      if 0 <=? e then nearest (m * k * 2 ^ e) 1 else nearest (m * k) (2 ^ (- e))
  end.

(** [int(x)]: truncation; no integer for infinity. *)
Definition f64_to_int (x : f64) : option Z :=
  match x with
  | Infinity => None
  | Finite m e => Some (if 0 <=? e then m * 2 ^ e else m / 2 ^ (- e))
  end.

(** [f"{x:.1f}"]: the exact value of the double, rounded to one decimal,
    ties to even. *)
Definition format_1f (x : f64) : option string :=
  match x with
  | Infinity => None
  | Finite m e =>
      let tenths :=
        if 0 <=? e then 10 * m * 2 ^ e
        else round_ratio_half_even (10 * m) (2 ^ (- e)) in
      Some (str (tenths / 10) ++ "." ++ str (tenths mod 10))%string
  end.

(** The value of a run of decimal digits (zero for the empty run). *)
Definition digits_value (t : string) : option Z :=
  if all_digits t then option_map Z.of_uint (NilEmpty.uint_of_string t)
  else None.

(** Unsigned decimal text, [digits], [digits.digits], [digits.] or
    [.digits]: the digits read as one integer, and the number of digits
    after the point. *)
Definition parse_decimal (s : string) : option (Z * nat) :=
  match split_on "." s with
  | [i] =>
      match i with
      | EmptyString => None
      | _ => option_map (fun v => (v, O)) (digits_value i)
      end
  | [i; f] =>
      match (i ++ f)%string with
      | EmptyString => None
      | t => option_map (fun v => (v, String.length f)) (digits_value t)
      end
  | _ => None
  end.

(** [float(s)]: the double nearest to the decimal written. (Exponents,
    [inf], [nan], blanks and underscores, which Python also reads, are
    outside this model and count as a [ValueError].) The sign is returned
    apart. *)
Definition py_float_of_string (s : string) : option (bool * f64) :=
  let '(negative, body) :=
    match s with
    | String c r =>
        if Ascii.eqb c "-" then (true, r)
        else if Ascii.eqb c "+" then (false, r)
        else (false, s)
    | EmptyString => (false, s)
    end in
  match parse_decimal body with
  | Some (digits, frac) => Some (negative, nearest digits (10 ^ Z.of_nat frac))
  | None => None
  end.

(** *** The two functions *)

(** [format_games(num)] (lines 8-21). The true division raises
    [OverflowError] when its result exceeds the doubles. *)
Definition format_games (num : Z) : outcome string :=
  if 1000000 <=? num then
    if num mod 1000000 =? 0 then Ok (str (num / 1000000) ++ "M")%string
    else match format_1f (nearest num 1000000) with
         | Some t => Ok (t ++ "M")%string
         | None => Raise OverflowError
         end
  else if 1000 <=? num then
    if num mod 1000 =? 0 then Ok (str (num / 1000) ++ "k")%string
    else match format_1f (nearest num 1000) with
         | Some t => Ok (t ++ "k")%string
         | None => Raise OverflowError
         end
  else Ok (str num).

(** [read_games_from_filename(filename)] (lines 23-44). Only the last
    conversion is guarded by [try]; the two suffix branches raise. *)
Definition read_games_from_filename (filename : string) : outcome Z :=
  let base := replace_pt (basename filename) in
  let parts := split_on "_" base in
  if (List.length parts <? 4)%nat then Ok 0
  else
    let games_part := nth 2 parts EmptyString in
    if endswith games_part "k" then
      match py_int_of_string (drop_last games_part) with
      | Ok n => Ok (n * 1000)
      | Raise e => Raise e
      end
    else if endswith games_part "M" then
      match py_float_of_string (drop_last games_part) with
      | None => Raise ValueError
      | Some (negative, x) =>
          match f64_to_int (f64_mul x 1000000) with
          | Some n => Ok (if negative then - n else n)
          | None => Raise OverflowError
          end
      end
    else
      match py_int_of_string games_part with
      | Ok n => Ok n
      | Raise _ => Ok 0
      end.

(** The path under which the training script saves a model (lines 76 and
    125): [f"CNN_models/cnnrl_{mode}_{format_games(n)}_{eps}.pt"], with
    [eps] the text of the decay factor. *)
Definition model_path (mode : string) (n : Z) (eps : string)
    : outcome string :=
  match format_games n with
  | Ok label =>
      Ok ("CNN_models/cnnrl_" ++ mode ++ "_" ++ label ++ "_" ++ eps ++ ".pt")%string
  | Raise e => Raise e
  end.

(* ===================================================================== *)
(** * Properties stated about the program                                 *)
(* ===================================================================== *)


(** ** Order on extended scores *)

Definition ext_le (a b : ext) : Prop := ext_leb a b = true.

Definition ext_lt (a b : ext) : Prop := ext_ltb a b = true.

(** Finitely many extended scores embed into the integers: pick [lo] below
    and [hi] above every finite score at hand and send the infinities
    there. Goals about the order then become linear arithmetic. *)
Definition emb (lo hi : Z) (a : ext) : Z :=
  match a with NegInf => lo | Fin z => z | PosInf => hi end.

Definition within (lo hi : Z) (a : ext) : Prop :=
  match a with Fin z => lo < z < hi | _ => True end.


(** ** Answers of the two searches *)

(** How the answer [r] of a pruning search with window [(a, b)] relates to
    the true minimax value [v]: exact inside the window, on the same side
    outside of it. *)
Definition bracket (v r a b : ext) : Prop :=
  (ext_le v a -> ext_le r a)
  /\ (ext_lt a v -> ext_lt v b -> r = v)
  /\ (ext_le b v -> ext_le b r).

Definition score (x : answer * counters) : ext := snd (fst x).

Definition cost (x : answer * counters) : counters := snd x.




(** ** Sampled positions *)

(** What the sampling loop maintains: the game was reached from the empty
    board by at most [k] legal moves, and its flag agrees with its board. *)
Definition reached (k : nat) (g : game) : Prop :=
  (exists moves, (List.length moves <= k)%nat /\ play new_game moves = Some g)
  /\ game_over g = is_game_over (grid g).

(** The property every returned board has. *)
Definition mid_game (b : board) : Prop :=
  is_game_over b = false
  /\ exists moves,
       (List.length moves <= 15)%nat
       /\ option_map grid (play new_game moves) = Some b.


(** ** Measurements and report rows *)








(** ** File names *)

(** One step of [replace_pt]: does the text start with [".pt"]? *)
Definition starts_pt (s : string) : bool :=
  match s with
  | String c (String c1 (String c2 _)) =>
      Ascii.eqb c "." && (Ascii.eqb c1 "p" && Ascii.eqb c2 "t")
  | _ => false
  end.

Definition skip2 (s : string) : string :=
  match s with
  | String _ (String _ r) => r
  | _ => EmptyString
  end.

(** What [read_games_from_filename] does with the third part of the name. *)
Definition read_label (games_part : string) : outcome Z :=
  if endswith games_part "k" then
    match py_int_of_string (drop_last games_part) with
    | Ok n => Ok (n * 1000)
    | Raise e => Raise e
    end
  else if endswith games_part "M" then
    match py_float_of_string (drop_last games_part) with
    | None => Raise ValueError
    | Some (negative, x) =>
        match f64_to_int (f64_mul x 1000000) with
        | Some n => Ok (if negative then - n else n)
        | None => Raise OverflowError
        end
    end
  else
    match py_int_of_string games_part with
    | Ok n => Ok n
    | Raise _ => Ok 0
    end.


(* ===================================================================== *)
(** ** The training script (src/train_rl.py, lines 46-128)                *)
(* ===================================================================== *)

(** *** What a script run leaves behind *)

(** An exception leaving a script: one of the built-in ones met so far,
    the end of the input, the request to leave the interpreter, or any
    other exception deriving from [Exception], raised inside a class that
    is not part of the sources and known by its name only. *)
Inductive fault : Type :=
| Builtin (e : exn)
| EOFError
| SystemExit
| Foreign (name : string).

Inductive run_result (A : Type) : Type :=
| Returned (a : A)
| Failed (f : fault).
Arguments Returned {A} a.
Arguments Failed {A} f.

Definition of_outcome {A : Type} (o : outcome A) : run_result A :=
  match o with
  | Ok a => Returned a
  | Raise e => Failed (Builtin e)
  end.

(** The floating point operations the script applies to the decay factor;
    their arithmetic is left to the instance. *)
Class Floats (F : Type) : Type :=
  { (** the literal with these decimal digits, [frac] of them after the
        point: [0.999995] is [float_of_decimal 999995 6] *)
    float_of_decimal : Z -> nat -> F;
    (** [f"{x}"] *)
    float_str : F -> string;
    (** [x ** n] for an integer [n] *)
    float_pow : F -> Z -> run_result F;
    (** [max(x, y)] *)
    float_max : F -> F -> F }.

(** The class [CNNRLAI] (imported from [models.rl_cnn_ai], not part of the
    sources) as the script uses it: a constructor, three methods and three
    attributes. A method returns the object as the call left it, or
    fails. *)
Class Agent (F A : Type) : Type :=
  { (** [CNNRLAI(player_id=.., epsilon_decay=.., device=..)]; [None] for an
        argument left out *)
    CNNRLAI : Z -> option F -> option string -> run_result A;
    load_model : A -> string -> run_result A;
    train : A -> Z -> string -> run_result A;
    save_model : A -> string -> run_result A;
    epsilon_decay : A -> F;
    epsilon_min : A -> F;
    set_epsilon : A -> F -> A;
    set_epsilon_decay : A -> F -> A }.

(** What can be observed of a run: the lines printed and the calls made on
    the agent class, in order. *)
Inductive event (F : Type) : Type :=
| Printed (text : string)
| Constructed (player_id : Z) (decay : option F) (device : option string)
| Loaded (path : string)
| Trained (num_games : Z) (mode : string)
| Saved (path : string).
Arguments Printed {F} text.
Arguments Constructed {F} player_id decay device.
Arguments Loaded {F} path.
Arguments Trained {F} num_games mode.
Arguments Saved {F} path.

(** A script: it extends the log and returns or fails. *)
Definition script (F A : Type) : Type :=
  list (event F) -> run_result A * list (event F).

Definition script_ret {F A : Type} (a : A) : script F A :=
  fun log => (Returned a, log).

Definition script_bind {F A B : Type} (m : script F A) (f : A -> script F B)
    : script F B :=
  fun log =>
    match m log with
    | (Returned a, log') => f a log'
    | (Failed e, log') => (Failed e, log')
    end.

Declare Scope script_scope.
Delimit Scope script_scope with script.
Notation "x <- m ;; k" := (script_bind m (fun x => k))
  (at level 61, m at next level, right associativity) : script_scope.
Notation "m ;;; k" := (script_bind m (fun _ => k))
  (at level 61, right associativity) : script_scope.

(** An event is logged when the call is made, whether it fails or not. *)
Definition logged {F A : Type} (e : event F) (r : run_result A) : script F A :=
  fun log => (r, log ++ [e]).

Definition print {F : Type} (text : string) : script F unit :=
  logged (Printed text) (Returned tt).

Definition script_lift {F A : Type} (r : run_result A) : script F A :=
  fun log => (r, log).

(** The calls on the agent class found in a log. *)
Definition is_call {F : Type} (e : event F) : bool :=
  match e with Printed _ => false | _ => true end.

Definition calls_of {F : Type} (log : list (event F)) : list (event F) :=
  filter is_call log.

(** [f"{n:,}"]: the decimal digits in groups of three, from the right. *)
Fixpoint with_commas (digits : string) : string :=
  match digits with
  | EmptyString => EmptyString
  | String c r =>
      String c
        (if (0 <? String.length r)%nat && (String.length r mod 3 =? 0)%nat
         then String "," (with_commas r) else with_commas r)
  end.

Definition format_commas (n : Z) : string :=
  if n <? 0 then String "-" (with_commas (str (- n)))
  else with_commas (str n).

Definition newline : string := String (ascii_of_nat 10) EmptyString.

Section TrainingScript.

Context {F A : Type} {floats : Floats F} {agent : Agent F A}.

Local Open Scope script_scope.
Local Open Scope string_scope.

(** [train_resumable(model_path, target_total_games, mode, epsilon_decay,
    device)] (lines 46-79). The parameter [model_path] is [model_file]
    here. *)
Definition train_resumable (model_file : string) (target_total_games : Z)
    (mode : string) (decay : F) (device : option string) : script F unit :=
  print ("Loading model from: " ++ model_file) ;;;
  already_trained <- script_lift (of_outcome (read_games_from_filename model_file)) ;;
  print ("Detected " ++ format_commas already_trained
         ++ " previously trained games.") ;;;
  rl <- logged (Constructed 1 (Some decay) device)
               (CNNRLAI 1 (Some decay) device) ;;
  rl <- logged (Loaded model_file) (load_model rl model_file) ;;
  eps_from_schedule <- script_lift (float_pow (epsilon_decay rl) already_trained) ;;
  let rl := set_epsilon rl (float_max (epsilon_min rl) eps_from_schedule) in
  let remaining := Z.max 0 (target_total_games - already_trained) in
  print ("Training remaining " ++ format_commas remaining
         ++ " games to reach " ++ format_commas target_total_games ++ "...") ;;;
  if (remaining =? 0)%Z then print "Model already trained to desired count."
  else
    rl <- logged (Trained remaining mode) (train rl remaining mode) ;;
    let new_games_total := already_trained + remaining in
    save_path <- script_lift (of_outcome
                   (model_path mode new_games_total (float_str decay))) ;;
    rl <- logged (Saved save_path) (save_model rl save_path) ;;
    print ("Saved resumed model as: " ++ save_path).

(** The command line as [argparse] hands it over (lines 82-96); [mode] is
    one of the three choices. *)
Record arguments : Type := mk_arguments
  { arg_mode : string;
    arg_games : option Z;
    arg_eps : option F;
    arg_device : option string;
    arg_resume : option string;
    arg_target_games : option Z }.

Definition mode_choices : list string := ["random"; "self"; "heuristic"].

(** [main()] after the command line is parsed (lines 98-128). *)
Definition main (args : arguments) : script F unit :=
  match arg_resume args with
  | Some model_file =>
      match arg_target_games args with
      | None => script_lift (Failed (Builtin ValueError))
      | Some target =>
          train_resumable model_file target (arg_mode args)
            (match arg_eps args with
             | Some e => e
             | None => float_of_decimal 999995 6
             end)
            (arg_device args)
      end
  | None =>
      rl <- logged (Constructed 1 None (arg_device args))
                   (CNNRLAI 1 None (arg_device args)) ;;
      let num_games :=
        match arg_games args with Some g => g | None => 10000 end in
      let rl :=
        match arg_eps args with
        | Some e => set_epsilon_decay rl e
        | None => rl
        end in
      let mode := arg_mode args in
      let eps_decay_str := float_str (epsilon_decay rl) in
      rl <- logged (Trained num_games mode) (train rl num_games mode) ;;
      saved_as <- script_lift (of_outcome
                    (model_path mode num_games eps_decay_str)) ;;
      rl <- logged (Saved saved_as) (save_model rl saved_as) ;;
      print (newline ++ "Model saved to: " ++ saved_as ++ newline)
  end.

End TrainingScript.

(** *** An agent for dry runs *)

(** One float only, the default decay factor; its arithmetic does
    nothing. *)
Definition dry_floats : Floats unit :=
  {| float_of_decimal := fun _ _ => tt;
     float_str := fun _ => "0.999995"%string;
     float_pow := fun x _ => Returned x;
     float_max := fun _ y => y |}.

(** An agent without state whose calls all succeed. *)
Definition dry_agent : Agent unit unit :=
  {| CNNRLAI := fun _ _ _ => Returned tt;
     load_model := fun a _ => Returned a;
     train := fun a _ _ => Returned a;
     save_model := fun a _ => Returned a;
     epsilon_decay := fun a => a;
     epsilon_min := fun a => a;
     set_epsilon := fun a _ => a;
     set_epsilon_decay := fun _ e => e |}.


(** Counts whose label is written without decimals. *)
Definition exact_count (n : Z) : Prop :=
  0 < n
  /\ (n < 1000 \/ (n < 1000000 /\ n mod 1000 = 0)
      \/ (n mod 1000000 = 0 /\ n < 2 ^ 53)).

(* ===================================================================== *)
(** ** The demo menus (src/demo.py)                                       *)
(* ===================================================================== *)

(** *** Text *)

(** Characters are Latin-1 code points; text outside Latin-1 is not
    covered. *)

(** [c.isspace()]: what [str.strip()] removes. *)
Definition is_space (c : ascii) : bool :=
  let n := nat_of_ascii c in
  ((9 <=? n) && (n <=? 13) || (28 <=? n) && (n <=? 32)
   || (n =? 133) || (n =? 160))%nat.

Fixpoint lstrip (s : string) : string :=
  match s with
  | String c r => if is_space c then lstrip r else s
  | EmptyString => EmptyString
  end.

(** The text without its trailing blanks. *)
Fixpoint rstrip (s : string) : string :=
  match s with
  | String c r =>
      match rstrip r with
      | EmptyString => if is_space c then EmptyString else String c EmptyString
      | r' => String c r'
      end
  | EmptyString => EmptyString
  end.

(** [s.strip()]. *)
Definition strip (s : string) : string := rstrip (lstrip s).

(** [c.isdigit()]: the ten digits and, in Latin-1, the superscripts two,
    three and one. *)
Definition isdigit_char (c : ascii) : bool :=
  let n := nat_of_ascii c in
  (is_digit c || (n =? 178) || (n =? 179) || (n =? 185))%nat.

Fixpoint all_isdigit (s : string) : bool :=
  match s with
  | EmptyString => true
  | String c r => isdigit_char c && all_isdigit r
  end.

(** [s.isdigit()]: false for the empty text. *)
Definition isdigit (s : string) : bool :=
  match s with
  | EmptyString => false
  | _ => all_isdigit s
  end.

(** The interpreter's limit on the digits of a decimal literal handed to
    [int] (the default of [sys.set_int_max_str_digits]). *)
Definition int_max_str_digits : nat := 4300.

(** [int(s)] for a text that passed [isdigit]: a [ValueError] for a
    superscript digit, and for more digits than the limit. *)
Definition int_of_choice (s : string) : outcome Z :=
  if (int_max_str_digits <? String.length s)%nat then Raise ValueError
  else py_int_of_string s.

(** [s.endswith(suffix)]. *)
Definition ends_with (suffix s : string) : bool :=
  (String.length suffix <=? String.length s)%nat
  && String.eqb (substring (String.length s - String.length suffix)
                           (String.length suffix) s) suffix.

(** [os.path.join(a, b)] with the separator [/]. *)
Definition os_path_join (a b : string) : string :=
  match b with
  | String "/" _ => b
  | _ =>
      if String.eqb a EmptyString || endswith a "/" then (a ++ b)%string
      else (a ++ String "/" b)%string
  end.

(** *** The console and the classes behind the menus *)

(** The opponents the menus build; their classes are not part of the
    sources. *)
Inductive ai_spec : Type :=
| RandomAI (player_id : Z)
| HeuristicAI (player_id : Z)
| ReinforcementLearningAI (player_id : Z) (q_table_path : string).

(** What a run shows and does, in order. *)
Inductive output : Type :=
| Shown (text : string)
| ShownError (f : fault)
| Asked (prompt : string)
| Listed (folder : string)
| Built (a : ai_spec)
| GameMade (player1_ai player2_ai : option ai_spec)
| GameRun.

(** The world of a run: the lines still to be typed, the content of the
    folders, how the calls into the absent classes end (the [k]-th such
    call ends as [answers k]), and what has been shown and done so far. *)
Record console : Type := mk_console
  { stdin : list string;
    listdir : string -> run_result (list string);
    answers : nat -> run_result unit;
    answered : nat;
    screen : list output }.

Definition demo (A : Type) : Type := console -> run_result A * console.

Definition demo_ret {A : Type} (a : A) : demo A := fun c => (Returned a, c).

Definition demo_bind {A B : Type} (m : demo A) (f : A -> demo B) : demo B :=
  fun c =>
    match m c with
    | (Returned a, c') => f a c'
    | (Failed e, c') => (Failed e, c')
    end.

Declare Scope demo_scope.
Delimit Scope demo_scope with demo.
Notation "x <- m ;; k" := (demo_bind m (fun x => k))
  (at level 61, m at next level, right associativity) : demo_scope.
Notation "m ;;; k" := (demo_bind m (fun _ => k))
  (at level 61, right associativity) : demo_scope.

Definition put (o : output) (c : console) : console :=
  {| stdin := stdin c; listdir := listdir c; answers := answers c;
     answered := answered c; screen := screen c ++ [o] |}.

(** [print(text)]. *)
Definition show (text : string) : demo unit :=
  fun c => (Returned tt, put (Shown text) c).

(** [input(prompt)]: [EOFError] when no line is left. *)
Definition input (prompt : string) : demo string :=
  fun c =>
    match stdin c with
    | [] => (Failed EOFError, put (Asked prompt) c)
    | line :: rest =>
        (Returned line,
         {| stdin := rest; listdir := listdir c; answers := answers c;
            answered := answered c; screen := screen c ++ [Asked prompt] |})
    end.

(** [exit()]. *)
Definition exit {A : Type} : demo A := fun c => (Failed SystemExit, c).

(** A call into one of the absent classes. *)
Definition external (o : output) : demo unit :=
  fun c =>
    (answers c (answered c),
     {| stdin := stdin c; listdir := listdir c; answers := answers c;
        answered := S (answered c); screen := screen c ++ [o] |}).

(** [os.listdir(folder)]. *)
Definition os_listdir (folder : string) : demo (list string) :=
  fun c => (listdir c folder, put (Listed folder) c).

Local Open Scope demo_scope.
Local Open Scope string_scope.

Definition rule : string := "=======================================".

(** The games started by [Connect4Game(...)] and [game.run()]. *)
Definition play_game (player1_ai player2_ai : option ai_spec) : demo unit :=
  external (GameMade player1_ai player2_ai) ;;; external GameRun.

(** [human_vs_human()] (lines 9-13). *)
Definition human_vs_human : demo unit :=
  show "Starting Human vs Human game..." ;;;
  play_game None None.

(** [ai_vs_ai()] (lines 58-64). *)
Definition ai_vs_ai : demo unit :=
  show "Starting AI vs AI game..." ;;;
  external (Built (RandomAI 1)) ;;;
  external (Built (RandomAI 2)) ;;;
  play_game (Some (RandomAI 1)) (Some (RandomAI 2)).

(** The lines 84-85 of [choose_qtable]: the numbered list. *)
Fixpoint show_numbered (i : nat) (files : list string) : demo unit :=
  match files with
  | [] => demo_ret tt
  | file :: rest =>
      show (str (Z.of_nat i) ++ ". " ++ file) ;;; show_numbered (S i) rest
  end.

Definition select_prompt : string := newline ++ "Select a model number: ".

Definition invalid_model : string :=
  "Invalid choice. Please select a valid model number.".

(** The loop of lines 87-91, over the lines still to be typed: it ends
    with a path, or with an exception. *)
Fixpoint choose_loop (files : list string) (lines : list string)
    (shown : list output) : run_result string * list string * list output :=
  match lines with
  | [] => (Failed EOFError, [], (shown ++ [Asked select_prompt])%list)
  | line :: rest =>
      let shown := (shown ++ [Asked select_prompt])%list in
      let choice := strip line in
      if isdigit choice then
        match int_of_choice choice with
        | Raise e => (Failed (Builtin e), rest, shown)
        | Ok k =>
            if ((1 <=? k) && (k <=? Z.of_nat (List.length files)))%Z
            then (Returned (os_path_join "qtables"
                              (nth (Z.to_nat (k - 1)) files EmptyString)),
                  rest, shown)
            else choose_loop files rest (shown ++ [Shown invalid_model])%list
        end
      else choose_loop files rest (shown ++ [Shown invalid_model])%list
  end.

(** [choose_qtable()] (lines 66-91). *)
Definition choose_qtable : demo (option string) :=
  listing <- os_listdir "qtables" ;;
  let files := filter (ends_with ".pkl") listing in
  match files with
  | [] =>
      show (newline ++ "No saved RL models found in directory.") ;;;
      show ("Train one using train_rl.py" ++ newline) ;;;
      demo_ret None
  | _ =>
      show (newline ++ "Available Reinforcement Learning Models:") ;;;
      show "==========================================" ;;;
      show_numbered 1 files ;;;
      fun c =>
        let '(r, rest, shown) := choose_loop files (stdin c) (screen c) in
        (match r with
         | Returned path => Returned (Some path)
         | Failed f => Failed f
         end,
         {| stdin := rest; listdir := listdir c; answers := answers c;
            answered := answered c; screen := shown |})
  end.

(** [human_vs_ai()] (lines 15-56). *)
Definition human_vs_ai : demo unit :=
  show rule ;;;
  show "We have several AI models. Please select one (1-5): " ;;;
  show rule ;;;
  show "1. Minimax w/ AlphaBeta Pruning" ;;;
  show "2. Monte Carlo Tree Search" ;;;
  show "3. Reinforcement Learning" ;;;
  show "4. Simple Heuristic Search" ;;;
  show "5. Exit" ;;;
  line <- input (newline ++ "Your choice (1-5): ") ;;
  let choice := strip line in
  let start (ai_player : option ai_spec) : demo unit :=
    show "Starting Human vs AI game..." ;;;
    play_game None ai_player in
  if String.eqb choice "1" then show "Not yet implemented" ;;; exit
  else if String.eqb choice "2" then show "Not yet implemented" ;;; exit
  else if String.eqb choice "3" then
    show (newline ++ "You selected Reinforcement Learning model.") ;;;
    filename <- choose_qtable ;;
    match filename with
    | None => show (newline ++ "Returning to menu" ++ newline)
    | Some path =>
        show (newline ++ "Loading model: " ++ path) ;;;
        external (Built (ReinforcementLearningAI 2 path)) ;;;
        start (Some (ReinforcementLearningAI 2 path))
    end
  else if String.eqb choice "4" then
    external (Built (HeuristicAI 2)) ;;;
    start (Some (HeuristicAI 2))
  else if String.eqb choice "5" then
    show "Goodbye!" ;;; start None
  else
    show "Invalid choice. Please select 1-5." ;;; start None.

(** [except Exception]: every exception of the model but [SystemExit]. *)
Definition is_exception (f : fault) : bool :=
  match f with SystemExit => false | _ => true end.

(** One pass of the loop of [main] (lines 104-122); [true] for
    [break]. *)
Definition main_pass : demo bool :=
  fun c =>
    let body : demo bool :=
      line <- input (newline ++ "Select game mode (1-4): ") ;;
      let choice := strip line in
      if String.eqb choice "1" then human_vs_human ;;; demo_ret false
      else if String.eqb choice "2" then human_vs_ai ;;; demo_ret false
      else if String.eqb choice "3" then ai_vs_ai ;;; demo_ret false
      else if String.eqb choice "4" then show "Goodbye!" ;;; demo_ret true
      else show "Invalid choice. Please select 1-4." ;;; demo_ret false in
    match body c with
    | (Failed f, c') =>
        if is_exception f then (Returned false, put (ShownError f) c')
        else (Failed f, c')
    | done => done
    end.

(** The loop of [main], for at most [passes] passes; [None] when it is
    still running after them. *)
Fixpoint main_loop (passes : nat) (c : console)
    : option (run_result unit) * console :=
  match passes with
  | O => (None, c)
  | S passes' =>
      match main_pass c with
      | (Returned true, c') => (Some (Returned tt), c')
      | (Returned false, c') => main_loop passes' c'
      | (Failed f, c') => (Some (Failed f), c')
      end
  end.

(** [main()] of the demo (lines 93-122). An interrupt from the keyboard
    can arrive at any moment and is not part of this model. *)
Definition demo_main (passes : nat) (c : console)
    : option (run_result unit) * console :=
  match (show rule ;;; show "Connect 4 Demo" ;;; show rule ;;;
         show "1. Human vs Human" ;;; show "2. Human vs AI" ;;;
         show "3. AI vs AI" ;;; show "4. Exit") c with
  | (Returned _, c') => main_loop passes c'
  | (Failed f, c') => (Some (Failed f), c')
  end.

Local Close Scope string_scope.
Local Close Scope demo_scope.

(** A console for concrete runs: the lines typed, the content of every
    folder, and absent classes whose calls all succeed. *)
Definition sample_console (lines listing : list string) : console :=
  {| stdin := lines;
     listdir := fun _ => Returned listing;
     answers := fun _ => Returned tt;
     answered := 0;
     screen := [] |}.

(* ===================================================================== *)
(** ** Decimal digits, one after the other                                *)
(* ===================================================================== *)

(** The digits of [d] followed by those of [d']. *)
Fixpoint uint_append (d d' : Decimal.uint) : Decimal.uint :=
  match d with
  | Decimal.Nil => d'
  | Decimal.D0 r => Decimal.D0 (uint_append r d')
  | Decimal.D1 r => Decimal.D1 (uint_append r d')
  | Decimal.D2 r => Decimal.D2 (uint_append r d')
  | Decimal.D3 r => Decimal.D3 (uint_append r d')
  | Decimal.D4 r => Decimal.D4 (uint_append r d')
  | Decimal.D5 r => Decimal.D5 (uint_append r d')
  | Decimal.D6 r => Decimal.D6 (uint_append r d')
  | Decimal.D7 r => Decimal.D7 (uint_append r d')
  | Decimal.D8 r => Decimal.D8 (uint_append r d')
  | Decimal.D9 r => Decimal.D9 (uint_append r d')
  end.

(** [s.count(c)] for a one-character [c]. *)
Fixpoint count_char (c : ascii) (s : string) : nat :=
  match s with
  | EmptyString => O
  | String d r => (if Ascii.eqb d c then 1 else 0) + count_char c r
  end.

(* ===================================================================== *)
(** * Facts about the search engine                                       *)
(* ===================================================================== *)

(** ** Order on extended scores *)

Lemma ext_bounds (l : list ext) :
  exists lo hi, lo < hi /\ Forall (within lo hi) l.
Proof.
  induction l as [|x l (lo & hi & Hlt & HF)].
  - exists 0, 1. split; [lia | constructor].
  - destruct x as [|z|].
    + exists lo, hi. split; [lia | constructor; [exact I | exact HF]].
    + exists (Z.min lo (z - 1)), (Z.max hi (z + 1)). split; [lia|].
      constructor; [cbn; lia|].
      eapply Forall_impl; [|exact HF].
      intros [|y|]; cbn; lia.
    + exists lo, hi. split; [lia | constructor; [exact I | exact HF]].
Qed.

Lemma emb_leb_true lo hi x y :
  lo < hi -> within lo hi x -> within lo hi y ->
  ext_leb x y = true <-> emb lo hi x <= emb lo hi y.
Proof.
  destruct x, y; cbn; rewrite ?Z.leb_le; intuition (try lia; try discriminate).
Qed.

Lemma emb_leb_false lo hi x y :
  lo < hi -> within lo hi x -> within lo hi y ->
  ext_leb x y = false <-> emb lo hi y < emb lo hi x.
Proof.
  destruct x, y; cbn; rewrite ?Z.leb_gt; intuition (try lia; try discriminate).
Qed.

Lemma emb_eq lo hi (x y : ext) :
  lo < hi -> within lo hi x -> within lo hi y ->
  x = y <-> emb lo hi x = emb lo hi y.
Proof.
  destruct x, y; cbn; intuition (try lia; try discriminate; try congruence).
Qed.

Ltac ext_unfold :=
  unfold ext_lt, ext_le, ext_ltb, ext_max, ext_min in *.

Ltac ext_ifs :=
  repeat match goal with
         | |- context [if ext_leb ?a ?b then _ else _] =>
             let E := fresh "E" in destruct (ext_leb a b) eqn:E
         | H : context [if ext_leb ?a ?b then _ else _] |- _ =>
             let E := fresh "E" in destruct (ext_leb a b) eqn:E
         | |- context [if negb (ext_leb ?a ?b) then _ else _] =>
             let E := fresh "E" in destruct (ext_leb a b) eqn:E; cbn [negb] in *
         | H : context [if negb (ext_leb ?a ?b) then _ else _] |- _ =>
             let E := fresh "E" in destruct (ext_leb a b) eqn:E; cbn [negb] in *
         end.

Ltac ext_vars acc :=
  match goal with
  | x : ext |- _ =>
      lazymatch acc with
      | context [x] => fail
      | _ => ext_vars (x :: acc)
      end
  | _ => acc
  end.

Ltac ext_embed lo hi :=
  repeat match goal with
         | H : context [ext_leb ?x ?y = true] |- _ =>
             rewrite (emb_leb_true lo hi x y) in H by assumption
         | H : context [ext_leb ?x ?y = false] |- _ =>
             rewrite (emb_leb_false lo hi x y) in H by assumption
         | |- context [ext_leb ?x ?y = true] =>
             rewrite (emb_leb_true lo hi x y) by assumption
         | |- context [ext_leb ?x ?y = false] =>
             rewrite (emb_leb_false lo hi x y) by assumption
         | H : context [@eq ext ?x ?y] |- _ =>
             rewrite (emb_eq lo hi x y) in H by assumption
         | |- context [@eq ext ?x ?y] =>
             rewrite (emb_eq lo hi x y) by assumption
         end.

(** Decide a goal about the order of extended scores held in variables. *)
Ltac ext_solve :=
  ext_unfold; ext_ifs;
  rewrite ?negb_true_iff, ?negb_false_iff in *;
  let l := ext_vars (@nil ext) in
  let lo := fresh "lo" in
  let hi := fresh "hi" in
  let Hlt := fresh "Hlt" in
  let HF := fresh "HF" in
  destruct (ext_bounds l) as (lo & hi & Hlt & HF);
  repeat match goal with
         | H : Forall _ (_ :: _) |- _ =>
             apply Forall_cons_iff in H; destruct H
         end;
  ext_embed lo hi; try lia.

Lemma ext_leb_refl a : ext_leb a a = true.
Proof. destruct a; cbn; [reflexivity | apply Z.leb_refl | reflexivity]. Qed.

Lemma ext_le_trans a b c : ext_le a b -> ext_le b c -> ext_le a c.
Proof. intros; ext_solve. Qed.

Lemma ext_lt_le a b : ext_lt a b -> ext_le a b.
Proof. intros; ext_solve. Qed.

Lemma ext_max_neginf a : ext_max NegInf a = a.
Proof. reflexivity. Qed.

(** ** Counter arithmetic *)

Lemma counters_eq (s t : counters) :
  nodes s = nodes t -> calls s = calls t ->
  cutoffs s = cutoffs t -> pruned s = pruned t -> s = t.
Proof. destruct s, t; cbn; intros; subst; reflexivity. Qed.

Ltac counters_solve :=
  apply counters_eq; cbn [plus nodes calls cutoffs pruned one_call zero fresh
                          one_cutoff incr_nodes log_call log_cutoff]; lia.

Lemma plus_zero s : plus s zero = s.
Proof. counters_solve. Qed.

Lemma plus_assoc s d e : plus (plus s d) e = plus s (plus d e).
Proof. counters_solve. Qed.

Lemma enter_is_one_call s : incr_nodes (log_call s) = plus s one_call.
Proof. counters_solve. Qed.

Lemma log_cutoff_plus s k : log_cutoff k s = plus s (one_cutoff k).
Proof. counters_solve. Qed.

(** ** The counting runs compute [mm] and [ab] *)

Section Runs.

Variable evaluate : board -> player -> Z.
Variable move_order : list nat.
Variable pid : player.

Local Abbreviation MM := (mm evaluate move_order pid).
Local Abbreviation AB := (ab evaluate move_order pid).
Local Abbreviation run_mm :=
  (counting_search (MinimaxAI_minimax evaluate move_order pid)).
Local Abbreviation run_ab :=
  (counting_search (MinimaxABAI_minimax_ab evaluate move_order pid)).

Lemma mm_max_loop_run (self : mm_arg -> counters -> outcome (answer * counters))
    (child : nat -> answer * counters) b depth :
  (forall c s, self (drop b c pid, depth - 1, false) s
               = Ok (fst (child c), plus s (snd (child c)))) ->
  forall cols bc best s,
    interp self (mm_max_loop pid b depth cols bc best) s
    = Ok (fst (scan_max child cols bc best),
          plus s (snd (scan_max child cols bc best))).
Proof.
  intros Hself. induction cols as [|c cs IH]; intros bc best s.
  - cbn. now rewrite plus_zero.
  - cbn [mm_max_loop interp scan_max]. rewrite Hself.
    destruct (child c) as [r d]. cbn [fst snd].
    destruct (ext_ltb best (snd r)).
    + rewrite IH. destruct (scan_max child cs (Some c) (snd r)) as [a d'].
      cbn [fst snd]. now rewrite plus_assoc.
    + rewrite IH. destruct (scan_max child cs bc best) as [a d'].
      cbn [fst snd]. now rewrite plus_assoc.
Qed.

Lemma mm_min_loop_run (self : mm_arg -> counters -> outcome (answer * counters))
    (child : nat -> answer * counters) b depth :
  (forall c s, self (drop b c (other pid), depth - 1, true) s
               = Ok (fst (child c), plus s (snd (child c)))) ->
  forall cols bc best s,
    interp self (mm_min_loop pid b depth cols bc best) s
    = Ok (fst (scan_min child cols bc best),
          plus s (snd (scan_min child cols bc best))).
Proof.
  intros Hself. induction cols as [|c cs IH]; intros bc best s.
  - cbn. now rewrite plus_zero.
  - cbn [mm_min_loop interp scan_min]. rewrite Hself.
    destruct (child c) as [r d]. cbn [fst snd].
    destruct (ext_ltb (snd r) best).
    + rewrite IH. destruct (scan_min child cs (Some c) (snd r)) as [a d'].
      cbn [fst snd]. now rewrite plus_assoc.
    + rewrite IH. destruct (scan_min child cs bc best) as [a d'].
      cbn [fst snd]. now rewrite plus_assoc.
Qed.

(** A stack deeper than the requested depth is enough: the counting
    minimax returns the value [mm] and adds its cost to the counters. *)
Lemma mm_run stack :
  forall b depth is_max s,
    (Z.to_nat depth < stack)%nat ->
    run_mm stack (b, depth, is_max) s
    = Ok (fst (MM (Z.to_nat depth) b is_max),
          plus s (snd (MM (Z.to_nat depth) b is_max))).
Proof.
  induction stack as [|stack IH]; intros b depth is_max s Hd; [lia|].
  cbn [counting_search]. rewrite enter_is_one_call.
  unfold MinimaxAI_minimax.
  destruct (is_game_over b) eqn:Hover; cbn [orb].
  - cbn [interp]. destruct (Z.to_nat depth); cbn [mm]; rewrite ?Hover;
      reflexivity.
  - destruct (Z.leb_spec depth 0) as [Hle|Hgt].
    + cbn [interp]. replace (Z.to_nat depth) with O by lia. reflexivity.
    + assert (Hn : Z.to_nat depth = S (Z.to_nat (depth - 1))) by lia.
      rewrite Hn. cbn [mm]. rewrite Hover.
      destruct is_max.
      * rewrite (mm_max_loop_run _
                   (fun c => MM (Z.to_nat (depth - 1)) (drop b c pid) false)).
        2:{ intros c s'. apply IH. lia. }
        destruct (scan_max _ _ _ _) as [a d]. cbn [fst snd].
        now rewrite plus_assoc.
      * rewrite (mm_min_loop_run _
                   (fun c => MM (Z.to_nat (depth - 1)) (drop b c (other pid)) true)).
        2:{ intros c s'. apply IH. lia. }
        destruct (scan_min _ _ _ _) as [a d]. cbn [fst snd].
        now rewrite plus_assoc.
Qed.

Lemma ab_max_loop_run (self : ab_arg -> counters -> outcome (answer * counters))
    (child : nat -> ext -> ext -> answer * counters) b depth :
  (forall c alpha beta s,
      self (drop b c pid, depth - 1, false, alpha, beta) s
      = Ok (fst (child c alpha beta), plus s (snd (child c alpha beta)))) ->
  forall cols bc best alpha beta s,
    interp self (ab_max_loop pid b depth cols bc best alpha beta) s
    = Ok (fst (ab_scan_max child cols bc best alpha beta),
          plus s (snd (ab_scan_max child cols bc best alpha beta))).
Proof.
  intros Hself. induction cols as [|c cs IH]; intros bc best alpha beta s.
  - cbn. now rewrite plus_zero.
  - cbn [ab_max_loop interp ab_scan_max]. rewrite Hself.
    destruct (child c alpha beta) as [r d]. cbn [fst snd].
    destruct (ext_leb beta (ext_max alpha (snd r))).
    + cbn [interp fst snd]. now rewrite log_cutoff_plus, plus_assoc.
    + rewrite IH. destruct (ab_scan_max _ _ _ _ _ _) as [a d'].
      cbn [fst snd]. now rewrite plus_assoc.
Qed.

Lemma ab_min_loop_run (self : ab_arg -> counters -> outcome (answer * counters))
    (child : nat -> ext -> ext -> answer * counters) b depth :
  (forall c alpha beta s,
      self (drop b c (other pid), depth - 1, true, alpha, beta) s
      = Ok (fst (child c alpha beta), plus s (snd (child c alpha beta)))) ->
  forall cols bc best alpha beta s,
    interp self (ab_min_loop pid b depth cols bc best alpha beta) s
    = Ok (fst (ab_scan_min child cols bc best alpha beta),
          plus s (snd (ab_scan_min child cols bc best alpha beta))).
Proof.
  intros Hself. induction cols as [|c cs IH]; intros bc best alpha beta s.
  - cbn. now rewrite plus_zero.
  - cbn [ab_min_loop interp ab_scan_min]. rewrite Hself.
    destruct (child c alpha beta) as [r d]. cbn [fst snd].
    destruct (ext_leb (ext_min beta (snd r)) alpha).
    + cbn [interp fst snd]. now rewrite log_cutoff_plus, plus_assoc.
    + rewrite IH. destruct (ab_scan_min _ _ _ _ _ _) as [a d'].
      cbn [fst snd]. now rewrite plus_assoc.
Qed.

Lemma ab_run stack :
  forall b depth is_max alpha beta s,
    (Z.to_nat depth < stack)%nat ->
    run_ab stack (b, depth, is_max, alpha, beta) s
    = Ok (fst (AB (Z.to_nat depth) b is_max alpha beta),
          plus s (snd (AB (Z.to_nat depth) b is_max alpha beta))).
Proof.
  induction stack as [|stack IH]; intros b depth is_max alpha beta s Hd; [lia|].
  cbn [counting_search]. rewrite enter_is_one_call.
  unfold MinimaxABAI_minimax_ab.
  destruct (is_game_over b) eqn:Hover; cbn [orb].
  - cbn [interp]. destruct (Z.to_nat depth); cbn [ab]; rewrite ?Hover;
      reflexivity.
  - destruct (Z.leb_spec depth 0) as [Hle|Hgt].
    + cbn [interp]. replace (Z.to_nat depth) with O by lia. reflexivity.
    + assert (Hn : Z.to_nat depth = S (Z.to_nat (depth - 1))) by lia.
      rewrite Hn. cbn [ab]. rewrite Hover.
      destruct is_max.
      * rewrite (ab_max_loop_run _
                   (fun c => AB (Z.to_nat (depth - 1)) (drop b c pid) false)).
        2:{ intros c a' b' s'. apply IH. lia. }
        destruct (ab_scan_max _ _ _ _ _ _) as [a d]. cbn [fst snd].
        now rewrite plus_assoc.
      * rewrite (ab_min_loop_run _
                   (fun c => AB (Z.to_nat (depth - 1)) (drop b c (other pid)) true)).
        2:{ intros c a' b' s'. apply IH. lia. }
        destruct (ab_scan_min _ _ _ _ _ _) as [a d]. cbn [fst snd].
        now rewrite plus_assoc.
Qed.

End Runs.

(** ** Alpha-beta against plain minimax *)

Section Scans.

Variable childM : nat -> answer * counters.
Variable childA : nat -> ext -> ext -> answer * counters.

Hypothesis child_bracket :
  forall c a b, ext_lt a b ->
    bracket (score (childM c)) (score (childA c a b)) a b.

Lemma scan_max_ge cols : forall bc best,
  ext_le best (score (scan_max childM cols bc best)).
Proof.
  induction cols as [|c cs IH]; intros bc best; unfold score in *.
  - cbn. apply ext_leb_refl.
  - cbn [scan_max]. destruct (childM c) as [r d].
    destruct (ext_ltb best (snd r)) eqn:E.
    + specialize (IH (Some c) (snd r)).
      destruct (scan_max childM cs (Some c) (snd r)) as [a d'].
      cbn [fst snd] in *. revert E IH. generalize (snd r) (snd a).
      intros; ext_solve.
    + specialize (IH bc best).
      destruct (scan_max childM cs bc best) as [a d']. exact IH.
Qed.

Lemma scan_min_le cols : forall bc best,
  ext_le (score (scan_min childM cols bc best)) best.
Proof.
  induction cols as [|c cs IH]; intros bc best; unfold score in *.
  - cbn. apply ext_leb_refl.
  - cbn [scan_min]. destruct (childM c) as [r d].
    destruct (ext_ltb (snd r) best) eqn:E.
    + specialize (IH (Some c) (snd r)).
      destruct (scan_min childM cs (Some c) (snd r)) as [a d'].
      cbn [fst snd] in *. revert E IH. generalize (snd r) (snd a).
      intros; ext_solve.
    + specialize (IH bc best).
      destruct (scan_min childM cs bc best) as [a d']. exact IH.
Qed.

(** Maximizing node: with [B] the best of plain minimax so far, [b] the
    best of the pruning scan, and [a] the current lower bound. *)
Lemma scan_max_bracket alpha0 beta cols :
  forall bcM bcA B b a,
    ext_lt a beta ->
    a = ext_max alpha0 b ->
    (ext_le B alpha0 /\ ext_le b alpha0) \/ (ext_lt alpha0 B /\ b = B) ->
    bracket (score (scan_max childM cols bcM B))
            (score (ab_scan_max childA cols bcA b a beta)) alpha0 beta.
Proof.
  induction cols as [|c cs IH]; intros bcM bcA B b a Hab Ha Inv.
  - unfold score, bracket; cbn. subst a. clear child_bracket.
    repeat split; intros; ext_solve.
  - pose proof (child_bracket c a beta Hab) as Hc.
    pose proof (scan_max_ge cs (if ext_ltb B (score (childM c)) then Some c else bcM)
                  (if ext_ltb B (score (childM c)) then score (childM c) else B)) as Hge.
    unfold score in *. cbn [scan_max ab_scan_max].
    destruct (childM c) as [rm dm]. destruct (childA c a beta) as [ra da].
    cbn [fst snd] in *.
    set (v := snd rm) in *. set (s := snd ra) in *.
    destruct (ext_leb beta (ext_max a s)) eqn:Hcut.
    + (* cut-off: the child already reaches beta *)
      cbn [fst snd].
      assert (Hv : ext_le beta v).
      { clear IH Hge Inv. subst a. unfold bracket in Hc.
        destruct Hc as (H1 & H2 & H3). clearbody v s.
        clear child_bracket. ext_solve. }
      destruct (ext_ltb B v) eqn:EB.
      * destruct (scan_max childM cs (Some c) v) as [am dm']. cbn [fst snd] in *.
        clear IH child_bracket. clearbody v s. subst a.
        unfold bracket in *. destruct Hc as (H1 & H2 & H3).
        generalize dependent (snd am). intros V Hge.
        repeat split; intros; ext_solve.
      * destruct (scan_max childM cs bcM B) as [am dm']. cbn [fst snd] in *.
        clear IH child_bracket. clearbody v s. subst a.
        unfold bracket in *. destruct Hc as (H1 & H2 & H3).
        generalize dependent (snd am). intros V Hge.
        repeat split; intros; ext_solve.
    + (* no cut-off: the invariant is kept *)
      clear Hge.
      specialize (IH (if ext_ltb B v then Some c else bcM)
                     (if ext_ltb b s then Some c else bcA)
                     (if ext_ltb B v then v else B)
                     (if ext_ltb b s then s else b)
                     (ext_max a s)).
      assert (H1 : ext_lt (ext_max a s) beta).
      { unfold ext_lt, ext_ltb. now rewrite Hcut. }
      assert (H2 : ext_max a s = ext_max alpha0 (if ext_ltb b s then s else b)).
      { clear IH Hc Inv. subst a. clearbody v s. clear child_bracket.
        ext_solve. }
      assert (H3 : (ext_le (if ext_ltb B v then v else B) alpha0
                    /\ ext_le (if ext_ltb b s then s else b) alpha0)
                   \/ (ext_lt alpha0 (if ext_ltb B v then v else B)
                       /\ (if ext_ltb b s then s else b)
                          = (if ext_ltb B v then v else B))).
      { clear IH H2. subst a. clearbody v s. clear child_bracket.
        unfold bracket in Hc. destruct Hc as (K1 & K2 & K3).
        ext_solve. }
      specialize (IH H1 H2 H3).
      destruct (ext_ltb B v);
        destruct (scan_max childM cs _ _) as [am dm'];
        destruct (ab_scan_max childA cs _ _ _ _) as [aa da'];
        exact IH.
Qed.

(** Minimizing node, dually: [b] is the current upper bound. *)
Lemma scan_min_bracket alpha beta0 cols :
  forall bcM bcA B b bt,
    ext_lt alpha bt ->
    bt = ext_min beta0 b ->
    (ext_le beta0 B /\ ext_le beta0 b) \/ (ext_lt B beta0 /\ b = B) ->
    bracket (score (scan_min childM cols bcM B))
            (score (ab_scan_min childA cols bcA b alpha bt)) alpha beta0.
Proof.
  induction cols as [|c cs IH]; intros bcM bcA B b bt Hab Hb Inv.
  - unfold score, bracket; cbn. subst bt. clear child_bracket.
    repeat split; intros; ext_solve.
  - pose proof (child_bracket c alpha bt Hab) as Hc.
    pose proof (scan_min_le cs (if ext_ltb (score (childM c)) B then Some c else bcM)
                  (if ext_ltb (score (childM c)) B then score (childM c) else B)) as Hle.
    unfold score in *. cbn [scan_min ab_scan_min].
    destruct (childM c) as [rm dm]. destruct (childA c alpha bt) as [ra da].
    cbn [fst snd] in *.
    set (v := snd rm) in *. set (s := snd ra) in *.
    destruct (ext_leb (ext_min bt s) alpha) eqn:Hcut.
    + cbn [fst snd].
      assert (Hv : ext_le v alpha).
      { clear IH Hle Inv. subst bt. unfold bracket in Hc.
        destruct Hc as (H1 & H2 & H3). clearbody v s.
        clear child_bracket. ext_solve. }
      destruct (ext_ltb v B) eqn:EB.
      * destruct (scan_min childM cs (Some c) v) as [am dm']. cbn [fst snd] in *.
        clear IH child_bracket. clearbody v s. subst bt.
        unfold bracket in *. destruct Hc as (H1 & H2 & H3).
        generalize dependent (snd am). intros V Hle.
        repeat split; intros; ext_solve.
      * destruct (scan_min childM cs bcM B) as [am dm']. cbn [fst snd] in *.
        clear IH child_bracket. clearbody v s. subst bt.
        unfold bracket in *. destruct Hc as (H1 & H2 & H3).
        generalize dependent (snd am). intros V Hle.
        repeat split; intros; ext_solve.
    + clear Hle.
      specialize (IH (if ext_ltb v B then Some c else bcM)
                     (if ext_ltb s b then Some c else bcA)
                     (if ext_ltb v B then v else B)
                     (if ext_ltb s b then s else b)
                     (ext_min bt s)).
      assert (H1 : ext_lt alpha (ext_min bt s)).
      { unfold ext_lt, ext_ltb. now rewrite Hcut. }
      assert (H2 : ext_min bt s = ext_min beta0 (if ext_ltb s b then s else b)).
      { clear IH Hc Inv. subst bt. clearbody v s. clear child_bracket.
        ext_solve. }
      assert (H3 : (ext_le beta0 (if ext_ltb v B then v else B)
                    /\ ext_le beta0 (if ext_ltb s b then s else b))
                   \/ (ext_lt (if ext_ltb v B then v else B) beta0
                       /\ (if ext_ltb s b then s else b)
                          = (if ext_ltb v B then v else B))).
      { clear IH H2. subst bt. clearbody v s. clear child_bracket.
        unfold bracket in Hc. destruct Hc as (K1 & K2 & K3).
        ext_solve. }
      specialize (IH H1 H2 H3).
      destruct (ext_ltb v B);
        destruct (scan_min childM cs _ _) as [am dm'];
        destruct (ab_scan_min childA cs _ _ _ _) as [aa da'];
        exact IH.
Qed.

(** At the root the window is unbounded above: the pruning scan then
    returns the very answer of plain minimax, column included. *)
Lemma scan_max_top beta (Htop : forall x, ext_le x beta) cols :
  forall bc, fst (scan_max childM cols bc beta) = (bc, beta).
Proof.
  induction cols as [|c cs IH]; intros bc; [reflexivity|].
  cbn [scan_max]. destruct (childM c) as [r d].
  assert (E : ext_ltb beta (snd r) = false).
  { unfold ext_ltb. now rewrite (Htop (snd r)). }
  rewrite E. specialize (IH bc).
  destruct (scan_max childM cs bc beta) as [a d']. exact IH.
Qed.

Lemma scan_max_root beta (Htop : forall x, ext_le x beta) cols :
  forall bc B,
    ext_lt B beta ->
    fst (ab_scan_max childA cols bc B B beta) = fst (scan_max childM cols bc B).
Proof.
  induction cols as [|c cs IH]; intros bc B HB; [reflexivity|].
  pose proof (child_bracket c B beta HB) as Hc. unfold score in Hc.
  cbn [scan_max ab_scan_max].
  destruct (childM c) as [rm dm]. destruct (childA c B beta) as [ra da].
  cbn [fst snd] in *.
  pose proof (Htop (snd rm)) as Tv. pose proof (Htop (snd ra)) as Ts.
  set (v := snd rm) in *. set (s := snd ra) in *. clearbody v s.
  assert (Hs : (ext_ltb B v = true /\ s = v /\ ext_max B v = v)
               \/ (ext_ltb B v = false /\ ext_ltb B s = false
                   /\ ext_max B s = B)).
  { clear IH child_bracket Htop. unfold bracket in Hc.
    destruct Hc as (K1 & K2 & K3). ext_solve. }
  destruct Hs as [(E1 & E2 & E3) | (E1 & E2 & E3)].
  - subst s. rewrite E1, E3.
    destruct (ext_leb beta v) eqn:Hcut.
    + assert (v = beta) by (clear IH child_bracket Htop Hc; ext_solve).
      subst v. cbn [fst]. pose proof (scan_max_top beta Htop cs (Some c)) as T.
      destruct (scan_max childM cs (Some c) beta) as [a d']. cbn [fst] in *.
      now rewrite T.
    + assert (Hv : ext_lt v beta) by (unfold ext_lt, ext_ltb; now rewrite Hcut).
      specialize (IH (Some c) v Hv).
      destruct (ab_scan_max childA cs (Some c) v v beta) as [aa da'].
      destruct (scan_max childM cs (Some c) v) as [am dm']. exact IH.
  - rewrite E1, E2, E3.
    assert (Hcut : ext_leb beta B = false).
    { clear IH child_bracket Htop Hc. ext_solve. }
    rewrite Hcut. specialize (IH bc B HB).
    destruct (ab_scan_max childA cs bc B B beta) as [aa da'].
    destruct (scan_max childM cs bc B) as [am dm']. exact IH.
Qed.

End Scans.

(** ** Cost: the pruning scan visits a prefix of what plain minimax visits *)

Section ScanCost.

Variable childM : nat -> answer * counters.
Variable childA : nat -> ext -> ext -> answer * counters.

Hypothesis childM_visits : forall c, 1 <= nodes (cost (childM c)).
Hypothesis childA_cost :
  forall c a b,
    nodes (cost (childA c a b)) + pruned (cost (childA c a b))
      <= nodes (cost (childM c))
    /\ 0 <= pruned (cost (childA c a b))
    /\ 0 <= cutoffs (cost (childA c a b))
    /\ 0 <= nodes (cost (childA c a b)).

Lemma scan_max_visits cols : forall bc best,
  Z.of_nat (List.length cols) <= nodes (cost (scan_max childM cols bc best)).
Proof.
  induction cols as [|c cs IH]; intros bc best; unfold cost in *.
  - cbn. lia.
  - cbn [scan_max]. pose proof (childM_visits c) as Hc. unfold cost in Hc.
    destruct (childM c) as [r d].
    destruct (ext_ltb best (snd r)).
    + specialize (IH (Some c) (snd r)).
      destruct (scan_max childM cs (Some c) (snd r)) as [a d'].
      cbn [fst snd plus nodes List.length] in *. lia.
    + specialize (IH bc best).
      destruct (scan_max childM cs bc best) as [a d'].
      cbn [fst snd plus nodes List.length] in *. lia.
Qed.

Lemma scan_min_visits cols : forall bc best,
  Z.of_nat (List.length cols) <= nodes (cost (scan_min childM cols bc best)).
Proof.
  induction cols as [|c cs IH]; intros bc best; unfold cost in *.
  - cbn. lia.
  - cbn [scan_min]. pose proof (childM_visits c) as Hc. unfold cost in Hc.
    destruct (childM c) as [r d].
    destruct (ext_ltb (snd r) best).
    + specialize (IH (Some c) (snd r)).
      destruct (scan_min childM cs (Some c) (snd r)) as [a d'].
      cbn [fst snd plus nodes List.length] in *. lia.
    + specialize (IH bc best).
      destruct (scan_min childM cs bc best) as [a d'].
      cbn [fst snd plus nodes List.length] in *. lia.
Qed.

Lemma scan_max_cost cols :
  forall bcM bcA B b a beta,
    let A := cost (ab_scan_max childA cols bcA b a beta) in
    nodes A + pruned A <= nodes (cost (scan_max childM cols bcM B))
    /\ 0 <= pruned A /\ 0 <= cutoffs A /\ 0 <= nodes A.
Proof.
  induction cols as [|c cs IH]; intros bcM bcA B b a beta; unfold cost in *.
  - cbn. lia.
  - cbn [scan_max ab_scan_max]. cbv zeta.
    pose proof (childA_cost c a beta) as Hc. unfold cost in Hc.
    destruct (childM c) as [rm dm]. destruct (childA c a beta) as [ra da].
    cbn [fst snd] in *.
    destruct (ext_leb beta (ext_max a (snd ra))).
    + pose proof (scan_max_visits cs
                    (if ext_ltb B (snd rm) then Some c else bcM)
                    (if ext_ltb B (snd rm) then snd rm else B)) as Hv.
      unfold cost in Hv.
      destruct (ext_ltb B (snd rm));
        destruct (scan_max childM cs _ _) as [am dm'];
        cbn [fst snd plus nodes pruned cutoffs one_cutoff] in *; lia.
    + specialize (IH (if ext_ltb B (snd rm) then Some c else bcM)
                     (if ext_ltb b (snd ra) then Some c else bcA)
                     (if ext_ltb B (snd rm) then snd rm else B)
                     (if ext_ltb b (snd ra) then snd ra else b)
                     (ext_max a (snd ra)) beta).
      cbv zeta in IH.
      destruct (ab_scan_max childA cs _ _ _ _) as [aa da'].
      destruct (ext_ltb B (snd rm));
        destruct (scan_max childM cs _ _) as [am dm'];
        cbn [fst snd plus nodes pruned cutoffs] in *; lia.
Qed.

Lemma scan_min_cost cols :
  forall bcM bcA B b alpha bt,
    let A := cost (ab_scan_min childA cols bcA b alpha bt) in
    nodes A + pruned A <= nodes (cost (scan_min childM cols bcM B))
    /\ 0 <= pruned A /\ 0 <= cutoffs A /\ 0 <= nodes A.
Proof.
  induction cols as [|c cs IH]; intros bcM bcA B b alpha bt; unfold cost in *.
  - cbn. lia.
  - cbn [scan_min ab_scan_min]. cbv zeta.
    pose proof (childA_cost c alpha bt) as Hc. unfold cost in Hc.
    destruct (childM c) as [rm dm]. destruct (childA c alpha bt) as [ra da].
    cbn [fst snd] in *.
    destruct (ext_leb (ext_min bt (snd ra)) alpha).
    + pose proof (scan_min_visits cs
                    (if ext_ltb (snd rm) B then Some c else bcM)
                    (if ext_ltb (snd rm) B then snd rm else B)) as Hv.
      unfold cost in Hv.
      destruct (ext_ltb (snd rm) B);
        destruct (scan_min childM cs _ _) as [am dm'];
        cbn [fst snd plus nodes pruned cutoffs one_cutoff] in *; lia.
    + specialize (IH (if ext_ltb (snd rm) B then Some c else bcM)
                     (if ext_ltb (snd ra) b then Some c else bcA)
                     (if ext_ltb (snd rm) B then snd rm else B)
                     (if ext_ltb (snd ra) b then snd ra else b)
                     alpha (ext_min bt (snd ra))).
      cbv zeta in IH.
      destruct (ab_scan_min childA cs _ _ _ _) as [aa da'].
      destruct (ext_ltb (snd rm) B);
        destruct (scan_min childM cs _ _) as [am dm'];
        cbn [fst snd plus nodes pruned cutoffs] in *; lia.
Qed.

End ScanCost.

(** ** Node level: [ab] against [mm] *)

Lemma bracket_same v a b : bracket v v a b.
Proof. unfold bracket. auto. Qed.

Lemma ext_le_posinf x : ext_le x PosInf.
Proof. destruct x; reflexivity. Qed.

Section Nodes.

Variable evaluate : board -> player -> Z.
Variable move_order : list nat.
Variable pid : player.

Local Abbreviation MM := (mm evaluate move_order pid).
Local Abbreviation AB := (ab evaluate move_order pid).

Lemma score_node (x : answer * counters) (d0 : counters) :
  score (let '(a, d) := x in (a, plus d0 d)) = score x.
Proof. now destruct x. Qed.

Lemma fst_node (x : answer * counters) (d0 : counters) :
  fst (let '(a, d) := x in (a, plus d0 d)) = fst x.
Proof. now destruct x. Qed.

Lemma cost_node (x : answer * counters) (d0 : counters) :
  cost (let '(a, d) := x in (a, plus d0 d)) = plus d0 (cost x).
Proof. now destruct x. Qed.

(** The pruning search answers within its window exactly as minimax. *)
Lemma ab_bracket n :
  forall b is_max alpha beta,
    ext_lt alpha beta ->
    bracket (score (MM n b is_max)) (score (AB n b is_max alpha beta))
            alpha beta.
Proof.
  induction n as [|n IH]; intros b is_max alpha beta Hab.
  - apply bracket_same.
  - cbn [mm ab]. destruct (is_game_over b); [apply bracket_same|].
    rewrite !score_node. destruct is_max.
    + apply (scan_max_bracket
               (fun c => MM n (drop b c pid) false)
               (fun c => AB n (drop b c pid) false)
               (fun c a b' Hw => IH _ _ a b' Hw)); [exact Hab | |].
      * destruct alpha; reflexivity.
      * left. split; reflexivity.
    + apply (scan_min_bracket
               (fun c => MM n (drop b c (other pid)) true)
               (fun c => AB n (drop b c (other pid)) true)
               (fun c a b' Hw => IH _ _ a b' Hw)); [exact Hab | |].
      * destruct beta; reflexivity.
      * left. split; apply ext_le_posinf.
Qed.

(** With the full window the root answers coincide, column and score. *)
Lemma ab_root n b :
  fst (AB n b true NegInf PosInf) = fst (MM n b true).
Proof.
  destruct n as [|n]; [reflexivity|].
  cbn [mm ab]. destruct (is_game_over b); [reflexivity|].
  rewrite !fst_node.
  apply (scan_max_root
           (fun c => MM n (drop b c pid) false)
           (fun c => AB n (drop b c pid) false)
           (fun c a b' Hw => ab_bracket n _ _ a b' Hw)
           PosInf ext_le_posinf).
  reflexivity.
Qed.

Lemma mm_visits n : forall b is_max, 1 <= nodes (cost (MM n b is_max)).
Proof.
  induction n as [|n IH]; intros b is_max; [cbn; lia|].
  cbn [mm]. destruct (is_game_over b); [cbn; lia|].
  rewrite cost_node. destruct is_max.
  - pose proof (scan_max_visits
                  (fun c => MM n (drop b c pid) false)
                  (fun c => IH _ _) (legal_moves move_order b) None NegInf).
    cbn [plus nodes one_call]. lia.
  - pose proof (scan_min_visits
                  (fun c => MM n (drop b c (other pid)) true)
                  (fun c => IH _ _) (legal_moves move_order b) None PosInf).
    cbn [plus nodes one_call]. lia.
Qed.

(** Every node the pruning search visits, and every sibling it skips, is
    a node plain minimax visits. *)
Lemma ab_cost n :
  forall b is_max alpha beta,
    let A := cost (AB n b is_max alpha beta) in
    nodes A + pruned A <= nodes (cost (MM n b is_max))
    /\ 0 <= pruned A /\ 0 <= cutoffs A /\ 0 <= nodes A.
Proof.
  induction n as [|n IH]; intros b is_max alpha beta; cbv zeta.
  - cbn. lia.
  - cbn [mm ab]. destruct (is_game_over b); [cbn; lia|].
    rewrite !cost_node. destruct is_max.
    + pose proof (scan_max_cost
                    (fun c => MM n (drop b c pid) false)
                    (fun c => AB n (drop b c pid) false)
                    (fun c => mm_visits n _ _)
                    (fun c a b' => IH _ _ a b')
                    (legal_moves move_order b) None None NegInf NegInf
                    alpha beta) as H.
      cbv zeta in H. cbn [plus nodes pruned cutoffs one_call]. lia.
    + pose proof (scan_min_cost
                    (fun c => MM n (drop b c (other pid)) true)
                    (fun c => AB n (drop b c (other pid)) true)
                    (fun c => mm_visits n _ _)
                    (fun c a b' => IH _ _ a b')
                    (legal_moves move_order b) None None PosInf PosInf
                    alpha beta) as H.
      cbv zeta in H. cbn [plus nodes pruned cutoffs one_call]. lia.
Qed.







End Nodes.

(* ===================================================================== *)
(** * The counting subclasses                                             *)
(* ===================================================================== *)

Section CountingFacts.

Context {Arg Res : Type}.
Variable super_search : Arg -> proc Arg Res Res.







End CountingFacts.

(* ===================================================================== *)
(** * The two search variants                                             *)
(* ===================================================================== *)

Section EngineClaims.

Variable evaluate : board -> player -> Z.
Variable move_order : list nat.

Local Abbreviation MM := (mm evaluate move_order).
Local Abbreviation AB := (ab evaluate move_order).

Lemma minimax_root_run stack a b :
  (Z.to_nat (depth_of a) < stack)%nat ->
  CountingMinimax_root evaluate move_order stack a b
  = Ok (fst (MM (player_id a) (Z.to_nat (depth_of a)) b true),
        with_state a
          (plus (state a)
                (cost (MM (player_id a) (Z.to_nat (depth_of a)) b true)))).
Proof.
  intros H. unfold CountingMinimax_root, counting_inherited, MinimaxAI_root.
  cbn [interp]. rewrite mm_run by exact H. reflexivity.
Qed.

Lemma alphabeta_root_run stack a b :
  (Z.to_nat (depth_of a) < stack)%nat ->
  CountingAlphaBeta_root evaluate move_order stack a b
  = Ok (fst (AB (player_id a) (Z.to_nat (depth_of a)) b true NegInf PosInf),
        with_state a
          (plus (state a)
                (cost (AB (player_id a) (Z.to_nat (depth_of a)) b true
                          NegInf PosInf)))).
Proof.
  intros H. unfold CountingAlphaBeta_root, counting_inherited, MinimaxABAI_root.
  cbn [interp]. rewrite ab_run by exact H. reflexivity.
Qed.



(** C1, as the search realises it. On every board and for every depth the
    pruning variant returns the column and the score of plain minimax; it
    never visits more nodes, and it visits strictly fewer whenever a
    cut-off leaves at least one sibling move unexplored. *)
Theorem alphabeta_agrees_with_minimax :
  forall pid depth b extra s1 s2,
    let stack := (S (Z.to_nat depth) + extra)%nat in
    exists col score a1 a2,
      CountingMinimax_root evaluate move_order stack
        {| player_id := pid; depth_of := depth; state := s1 |} b
      = Ok ((col, score), a1)
      /\ CountingAlphaBeta_root evaluate move_order stack
           {| player_id := pid; depth_of := depth; state := s2 |} b
         = Ok ((col, score), a2)
      /\ nodes (state a2) - nodes s2 <= nodes (state a1) - nodes s1
      /\ (0 < pruned (state a2) - pruned s2 ->
          nodes (state a2) - nodes s2 < nodes (state a1) - nodes s1).
Proof.
  intros pid depth b extra s1 s2 stack.
  assert (Hstack : (Z.to_nat depth < stack)%nat) by (subst stack; lia).
  rewrite minimax_root_run by exact Hstack.
  rewrite alphabeta_root_run by exact Hstack.
  cbn [player_id depth_of state with_state].
  rewrite ab_root.
  pose proof (ab_cost evaluate move_order pid (Z.to_nat depth) b true
                NegInf PosInf) as H. cbv zeta in H.
  destruct (fst (MM pid (Z.to_nat depth) b true)) as [col score].
  exists col, score. eexists. eexists.
  split; [reflexivity|]. split; [reflexivity|].
  cbn [with_state state plus nodes pruned]. lia.
Qed.


(** C8. A search call with [depth <= 0] evaluates the board at once: one
    frame is enough and one node is counted. For every depth a stack of
    [depth + 1] frames is enough for either variant to return: the
    recursion cannot run away. *)
Theorem search_terminates :
  forall pid b depth is_max alpha beta extra s,
    (exists r s',
        CountingMinimax_minimax evaluate move_order
          (S (Z.to_nat depth) + extra) pid (b, depth, is_max) s = Ok (r, s'))
    /\ (exists r s',
           CountingAlphaBeta_minimax_ab evaluate move_order
             (S (Z.to_nat depth) + extra) pid
             (b, depth, is_max, alpha, beta) s = Ok (r, s'))
    /\ (depth <= 0 ->
        CountingMinimax_minimax evaluate move_order 1 pid (b, depth, is_max) s
        = Ok ((None, Fin (evaluate b pid)), incr_nodes (log_call s))
        /\ CountingAlphaBeta_minimax_ab evaluate move_order 1 pid
             (b, depth, is_max, alpha, beta) s
           = Ok ((None, Fin (evaluate b pid)), incr_nodes (log_call s))).
Proof.
  intros pid b depth is_max alpha beta extra s.
  unfold CountingMinimax_minimax, CountingAlphaBeta_minimax_ab.
  split; [|split].
  - rewrite mm_run by lia. eauto.
  - rewrite ab_run by lia. eauto.
  - intros Hd. rewrite mm_run, ab_run by lia.
    replace (Z.to_nat depth) with O by lia. cbn [mm ab fst snd].
    now rewrite enter_is_one_call.
Qed.

End EngineClaims.

(** C1 as stated fails. With two free cells left, in columns 0 and 1, a
    search of depth 2 meets [alpha >= beta] once, after the only reply to
    the second root move: the test succeeds with no sibling left to skip,
    and both variants visit the same five nodes. *)
Lemma cutoff_without_saving :
  CountingMinimax_root simple_evaluate columns 3 (new_ai P1 2) two_left
  = Ok ((Some 0%nat, Fin 0),
        {| player_id := P1; depth_of := 2;
           state := {| nodes := 5; calls := 5; cutoffs := 0; pruned := 0 |} |})
  /\ CountingAlphaBeta_root simple_evaluate columns 3 (new_ai P1 2) two_left
     = Ok ((Some 0%nat, Fin 0),
           {| player_id := P1; depth_of := 2;
              state := {| nodes := 5; calls := 5; cutoffs := 1; pruned := 0 |} |})
  /\ well_formed two_left = true.
Proof. vm_compute. repeat split. Qed.



(* ===================================================================== *)
(** * Facts about [generate_boards]                                       *)
(* ===================================================================== *)

Lemma randint_range lo hi g :
  lo <= hi -> lo <= fst (randint lo hi g) <= hi.
Proof.
  intros H. cbn [randint fst].
  pose proof (Z.mod_pos_bound (Z.of_nat (draws g (drawn g))) (hi - lo + 1)).
  lia.
Qed.

Lemma play_snoc g0 moves g c :
  play g0 moves = Some g ->
  game_over g = false ->
  game_is_valid_move g c = true ->
  play g0 (moves ++ [c]) = Some (game_make_move g c).
Proof.
  revert g0. induction moves as [|m ms IH]; intros g0 Hp Hover Hvalid.
  - injection Hp as ->. cbn. now rewrite Hover, Hvalid.
  - cbn in *. destruct (game_over g0); [discriminate|].
    destruct (game_is_valid_move g0 m); [|discriminate].
    now apply IH.
Qed.

Lemma reached_start : reached 0 new_game.
Proof.
  split.
  - exists []. split; [cbn; lia | reflexivity].
  - vm_compute. reflexivity.
Qed.

Lemma reached_more k k' g : (k <= k')%nat -> reached k g -> reached k' g.
Proof.
  intros Hk [(moves & Hlen & Hp) Hflag]. split; [|exact Hflag].
  exists moves. split; [lia | exact Hp].
Qed.

Lemma reached_move k g c :
  reached k g -> game_over g = false ->
  reached (S k) (game_make_move g c).
Proof.
  intros Hr Hover.
  destruct (game_is_valid_move g c) eqn:Hvalid.
  - destruct Hr as [(moves & Hlen & Hp) Hflag]. split.
    + exists (moves ++ [c]). split.
      * rewrite length_app. cbn. lia.
      * now apply play_snoc.
    + unfold game_make_move, make_move.
      unfold game_is_valid_move in Hvalid. rewrite Hvalid. reflexivity.
  - unfold game_make_move, make_move.
    unfold game_is_valid_move in Hvalid. rewrite Hvalid.
    apply (reached_more k); [lia | exact Hr].
Qed.

Lemma sample_step_reached k g r :
  reached k g -> reached (S k) (fst (sample_step g r)).
Proof.
  intros Hr. unfold sample_step.
  destruct (game_over g) eqn:Hover.
  - cbn. apply (reached_more k); [lia | exact Hr].
  - destruct (randint 0 6 r) as [c1 r1].
    destruct (game_is_valid_move g (Z.to_nat c1)).
    + destruct (randint 0 6 r1) as [c2 r2]. cbn. now apply reached_move.
    + cbn. apply (reached_more k); [lia | exact Hr].
Qed.

Lemma sample_loop_reached n : forall k g r,
  reached k g -> reached (n + k) (fst (sample_loop n g r)).
Proof.
  induction n as [|n IH]; intros k g r Hr.
  - exact Hr.
  - cbn [sample_loop].
    pose proof (sample_step_reached k g r Hr) as Hs.
    destruct (sample_step g r) as [g' r']. cbn [fst] in Hs.
    replace (S n + k)%nat with (n + S k)%nat by lia.
    now apply IH.
Qed.

Lemma sample_mid_game r b :
  fst (sample r) = Some b -> mid_game b.
Proof.
  unfold sample. pose proof (randint_range 8 15 r ltac:(lia)) as Hk.
  destruct (randint 8 15 r) as [k r1]. cbn [fst] in Hk.
  pose proof (sample_loop_reached (Z.to_nat k) 0 new_game r1 reached_start) as Hr.
  destruct (sample_loop (Z.to_nat k) new_game r1) as [g r2]. cbn [fst] in *.
  destruct (game_over g) eqn:Hover; [discriminate|].
  intros [= <-].
  destruct Hr as [(moves & Hlen & Hp) Hflag]. split.
  - now rewrite <- Hflag.
  - exists moves. split; [lia|]. now rewrite Hp.
Qed.

Lemma generate_boards_loop_keeps (P : board -> Prop) n :
  (forall r b, fst (sample r) = Some b -> P b) ->
  forall boards r,
    Forall P boards -> Forall P (fst (generate_boards_loop n boards r)).
Proof.
  intros Hs. induction n as [|n IH]; intros boards r HF; [exact HF|].
  cbn [generate_boards_loop].
  pose proof (Hs r) as Hb. destruct (sample r) as [[b|] r']; cbn [fst] in Hb.
  - apply IH. apply Forall_app. split; [exact HF|].
    constructor; [now apply Hb | constructor].
  - now apply IH.
Qed.

Lemma generate_boards_loop_length n : forall boards r,
  (List.length (fst (generate_boards_loop n boards r))
   <= List.length boards + n)%nat.
Proof.
  induction n as [|n IH]; intros boards r; cbn [generate_boards_loop].
  - cbn. lia.
  - destruct (sample r) as [[b|] r'].
    + specialize (IH (boards ++ [b]) r'). rewrite length_app in IH.
      cbn in IH. lia.
    + specialize (IH boards r'). lia.
Qed.

(** C4. Every board [generate_boards] returns is a position in which the
    game is not over, reached from the empty board by at most fifteen
    legal moves; a sample whose game ended is not returned. *)
Theorem generate_boards_returns_mid_game_positions :
  forall n r, Forall mid_game (fst (generate_boards n r)).
Proof.
  intros n r. unfold generate_boards.
  apply generate_boards_loop_keeps; [|constructor].
  intros r0 b. apply sample_mid_game.
Qed.

(* ===================================================================== *)
(** * Facts about [benchmark]                                             *)
(* ===================================================================== *)


Section BenchmarkFacts.

Variable evaluate : board -> player -> Z.
Variable move_order : list nat.
Variable recursion_limit : nat.

Local Abbreviation run_board :=
  (bench_board evaluate move_order recursion_limit).
Local Abbreviation run_depth :=
  (bench_depth evaluate move_order recursion_limit).
Local Abbreviation run_benchmark :=
  (benchmark evaluate move_order recursion_limit).



(** Dividing leaves the world alone. *)
Lemma true_div_world x y w : snd (true_div x y w) = w.
Proof. unfold true_div. destruct (Qeq_bool y 0); reflexivity. Qed.

Lemma true_div_ok x y w q :
  fst (true_div x y w) = Ok q -> q = (x / y)%Q /\ Qeq_bool y 0 = false.
Proof.
  unfold true_div. destruct (Qeq_bool y 0); cbn; [discriminate|].
  intros [= <-]. split; reflexivity.
Qed.

Lemma true_div_run x y w :
  true_div x y w
  = (if Qeq_bool y 0 then Raise ZeroDivisionError else Ok (x / y)%Q, w).
Proof. unfold true_div. destruct (Qeq_bool y 0); reflexivity. Qed.

Lemma bind_true_div (B : Type) x y (f : Q -> harness B) w :
  bind (true_div x y) f w
  = if Qeq_bool y 0 then (Raise ZeroDivisionError, w) else f (x / y)%Q w.
Proof. unfold bind, true_div. destruct (Qeq_bool y 0); reflexivity. Qed.

Lemma averages_run n t w :
  averages n t w
  = (if Qeq_bool (inject_Z (Z.of_nat n)) 0 then Raise ZeroDivisionError
     else Ok (minimax_time t / inject_Z (Z.of_nat n),
              alphabeta_time t / inject_Z (Z.of_nat n),
              inject_Z (minimax_nodes t) / inject_Z (Z.of_nat n),
              inject_Z (alphabeta_nodes t) / inject_Z (Z.of_nat n))%Q, w).
Proof.
  unfold averages. rewrite bind_true_div.
  destruct (Qeq_bool (inject_Z (Z.of_nat n)) 0) eqn:E; [reflexivity|].
  rewrite !bind_true_div, E. reflexivity.
Qed.





Lemma benchmark_eq w :
  run_benchmark w
  = let (boards, r) := generate_boards 30 (entropy w) in
    match run_depth boards 3 []
            {| entropy := r; wall := wall w; journal := journal w |} with
    | (Ok rs3, w3) =>
        match run_depth boards 4 rs3 w3 with
        | (Ok rs4, w4) =>
            match run_depth boards 5 rs4 w4 with
            | (Ok rs5, w5) => (Ok rs5, w5)
            | (Raise e, w5) => (Raise e, w5)
            end
        | (Raise e, w4) => (Raise e, w4)
        end
    | (Raise e, w3) => (Raise e, w3)
    end.
Proof.
  unfold benchmark, bind, with_random.
  destruct (generate_boards 30 (entropy w)) as [boards r]. reflexivity.
Qed.




End BenchmarkFacts.

(** ** Totals read off the journal *)








(* ===================================================================== *)
(** * Empty samples                                                       *)
(* ===================================================================== *)

Lemma inject_nat_zero (n : nat) :
  Qeq_bool (inject_Z (Z.of_nat n)) 0 = true <-> n = 0%nat.
Proof.
  rewrite Qeq_bool_iff. unfold Qeq. cbn. lia.
Qed.

(** C10. [generate_boards(n)] may return fewer than [n] boards, and none
    at all; the averaging step divides by [len(boards)] without a test, so
    it raises [ZeroDivisionError] exactly when the list is empty, and on
    an empty sample [benchmark] ends with that exception. *)
Theorem empty_sample_divides_by_zero :
  (exists r, fst (generate_boards 30 r) = [])
  /\ (forall n r,
        (List.length (fst (generate_boards n r)) <= Z.to_nat n)%nat)
  /\ (forall n t w,
        fst (averages n t w) = Raise ZeroDivisionError <-> n = 0%nat)
  /\ (forall evaluate move_order recursion_limit w,
        fst (generate_boards 30 (entropy w)) = [] ->
        fst (benchmark evaluate move_order recursion_limit w)
        = Raise ZeroDivisionError).
Proof.
  split; [|split; [|split]].
  - exists {| draws := losing_draws; drawn := 0 |}. vm_compute. reflexivity.
  - intros n r. unfold generate_boards.
    pose proof (generate_boards_loop_length (Z.to_nat n) [] r). cbn in *. lia.
  - intros n t w. rewrite averages_run. cbn [fst].
    rewrite <- inject_nat_zero.
    destruct (Qeq_bool (inject_Z (Z.of_nat n)) 0); split;
      congruence || discriminate.
  - intros evaluate move_order recursion_limit w Hgen.
    rewrite benchmark_eq.
    destruct (generate_boards 30 (entropy w)) as [boards r].
    cbn [fst] in Hgen. subst boards. reflexivity.
Qed.

(* ===================================================================== *)
(** * Facts about the model file names                                    *)
(* ===================================================================== *)

Local Open Scope string_scope.

(** ** Strings *)

Lemma contains_app c a b :
  contains c (a ++ b) = contains c a || contains c b.
Proof.
  induction a as [|d a IH]; cbn; [reflexivity|].
  now rewrite IH, orb_assoc.
Qed.

Lemma split_on_not_nil sep s : split_on sep s <> [].
Proof.
  destruct s as [|c r]; cbn; [discriminate|].
  destruct (Ascii.eqb c sep); [discriminate|].
  destruct (split_on sep r); discriminate.
Qed.

Lemma split_on_sep sep x y :
  contains sep x = false ->
  split_on sep (x ++ String sep y) = x :: split_on sep y.
Proof.
  induction x as [|c x IH]; cbn; intros H.
  - now rewrite Ascii.eqb_refl.
  - apply orb_false_elim in H as [Hc Hx]. rewrite Hc, (IH Hx). reflexivity.
Qed.

Lemma split_on_absent sep x :
  contains sep x = false -> split_on sep x = [x].
Proof.
  induction x as [|c x IH]; cbn; intros H; [reflexivity|].
  apply orb_false_elim in H as [Hc Hx]. now rewrite Hc, (IH Hx).
Qed.

Lemma basename_plain y : contains "/" y = false -> basename y = y.
Proof. destruct y as [|c r]; cbn; intros H; [reflexivity | now rewrite H]. Qed.

Lemma basename_after_slash x y :
  basename (x ++ String "/" y) = basename y.
Proof.
  induction x as [|c x IH]; cbn -[basename].
  - cbn. reflexivity.
  - cbn. rewrite contains_app. cbn. rewrite orb_true_r, orb_true_r. exact IH.
Qed.

Lemma replace_pt_step c r :
  replace_pt (String c r)
  = if starts_pt (String c r) then replace_pt (skip2 r)
    else String c (replace_pt r).
Proof.
  cbn [replace_pt starts_pt skip2].
  destruct r as [|c1 [|c2 r2]]; destruct (Ascii.eqb c "."); cbn [andb];
    try reflexivity.
Qed.

Lemma starts_pt_before_sep c x y :
  starts_pt (String c x ++ String "_" y) = starts_pt (String c x).
Proof.
  destruct x as [|c1 [|c2 x]]; cbn.
  - destruct y; [reflexivity|]. cbn. now rewrite andb_false_r.
  - now rewrite !andb_false_r.
  - reflexivity.
Qed.

(** Removing [".pt"] acts on each side of an underscore separately. *)
Lemma replace_pt_sep_bounded n : forall x y,
  (String.length x <= n)%nat ->
  replace_pt (x ++ String "_" y) = replace_pt x ++ String "_" (replace_pt y).
Proof.
  induction n as [|n IH]; intros x y Hn.
  - destruct x; [|cbn in Hn; lia]. reflexivity.
  - destruct x as [|c x]; [reflexivity|]. cbn in Hn.
    change (String c x ++ String "_" y) with (String c (x ++ String "_" y)).
    rewrite !replace_pt_step.
    change (String c (x ++ String "_" y)) with (String c x ++ String "_" y).
    rewrite starts_pt_before_sep.
    destruct (starts_pt (String c x)) eqn:E.
    + destruct x as [|c1 [|c2 x]]; try discriminate E.
      cbn [append skip2]. apply IH. cbn in Hn. lia.
    + cbn [append]. rewrite IH by lia. reflexivity.
Qed.

Lemma replace_pt_sep x y :
  replace_pt (x ++ String "_" y) = replace_pt x ++ String "_" (replace_pt y).
Proof. now apply (replace_pt_sep_bounded (String.length x)). Qed.

Lemma replace_pt_keeps_absent_bounded c n : forall s,
  (String.length s <= n)%nat ->
  contains c s = false -> contains c (replace_pt s) = false.
Proof.
  induction n as [|n IH]; intros s Hn H.
  - destruct s; [reflexivity | cbn in Hn; lia].
  - destruct s as [|d s]; [reflexivity|].
    cbn in Hn. rewrite replace_pt_step.
    cbn [contains] in H. apply orb_false_elim in H as [Hd Hs].
    destruct (starts_pt (String d s)) eqn:E.
    + destruct s as [|c1 [|c2 s]]; try discriminate E.
      cbn [skip2]. cbn in Hs. apply orb_false_elim in Hs as [_ Hs].
      apply orb_false_elim in Hs as [_ Hs].
      apply IH; [cbn in Hn; lia | exact Hs].
    + cbn. rewrite Hd. apply IH; [lia | exact Hs].
Qed.

Lemma replace_pt_keeps_absent c s :
  contains c s = false -> contains c (replace_pt s) = false.
Proof. now apply (replace_pt_keeps_absent_bounded c (String.length s)). Qed.

Lemma replace_pt_without_dot s :
  contains "." s = false -> replace_pt s = s.
Proof.
  induction s as [|c s IH]; [reflexivity|]. cbn. intros H.
  apply orb_false_elim in H as [Hc Hs]. rewrite Hc, (IH Hs). reflexivity.
Qed.

Lemma endswith_snoc s c : endswith (s ++ String c EmptyString) c = true.
Proof.
  unfold endswith.
  assert (H : last_char (s ++ String c EmptyString) = Some c).
  { induction s as [|d s IH]; [reflexivity|].
    cbn [append last_char]. destruct (s ++ String c EmptyString) eqn:E; [|exact IH].
    destruct s; discriminate. }
  rewrite H. apply Ascii.eqb_refl.
Qed.

Lemma drop_last_snoc s c : drop_last (s ++ String c EmptyString) = s.
Proof.
  induction s as [|d s IH]; [reflexivity|].
  cbn [append drop_last]. destruct (s ++ String c EmptyString) eqn:E.
  - destruct s; discriminate.
  - now rewrite IH.
Qed.

(** ** Decimal digits *)

Lemma string_of_uint_digits d : all_digits (NilEmpty.string_of_uint d) = true.
Proof. induction d; cbn; auto. Qed.

Lemma digits_lack c s :
  all_digits s = true -> is_digit c = false -> contains c s = false.
Proof.
  intros Hs Hc. induction s as [|d s IH]; [reflexivity|].
  cbn in *. apply andb_prop in Hs as [Hd Hs]. rewrite (IH Hs), orb_false_r.
  destruct (Ascii.eqb_spec d c) as [->|]; [congruence | reflexivity].
Qed.

Lemma digits_end s c :
  all_digits s = true -> is_digit c = false -> endswith s c = false.
Proof.
  intros Hs Hc. unfold endswith.
  destruct (last_char s) as [d|] eqn:E; [|reflexivity].
  assert (Hd : is_digit d = true).
  { clear Hc. induction s as [|d' s IH]; [discriminate|].
    cbn in Hs. apply andb_prop in Hs as [Hd' Hs].
    cbn [last_char] in E. destruct s; [now injection E as <- | now apply IH]. }
  destruct (Ascii.eqb_spec d c) as [->|]; [congruence | reflexivity].
Qed.

(** The text of a positive integer: its digits, and [int] reads them
    back. *)
Lemma str_positive (p : positive) :
  str (Zpos p) = NilEmpty.string_of_uint (Pos.to_uint p)
  /\ str (Zpos p) <> EmptyString
  /\ all_digits (str (Zpos p)) = true
  /\ NilZero.uint_of_string (str (Zpos p)) = Some (Pos.to_uint p).
Proof.
  assert (Hnil : Pos.to_uint p <> Decimal.Nil).
  { intros H. pose proof (DecimalPos.Unsigned.of_to p) as Hp.
    rewrite H in Hp. discriminate. }
  assert (E : str (Zpos p) = NilEmpty.string_of_uint (Pos.to_uint p)).
  { unfold str. cbn. unfold NilZero.string_of_uint.
    destruct (Pos.to_uint p); [congruence | reflexivity ..]. }
  split; [exact E|]. split; [|split].
  - rewrite E. destruct (Pos.to_uint p); cbn; congruence.
  - rewrite E. apply string_of_uint_digits.
  - pose proof (NilZero.usu (Pos.to_uint p) Hnil) as H.
    unfold NilZero.string_of_uint in H. rewrite E.
    destruct (Pos.to_uint p); [congruence | exact H ..].
Qed.

Lemma first_digit_not_sign s c r :
  s = String c r -> all_digits s = true ->
  Ascii.eqb c "-" = false /\ Ascii.eqb c "+" = false.
Proof.
  intros -> H. cbn in H. apply andb_prop in H as [Hc _].
  split; destruct (Ascii.eqb_spec c "-"), (Ascii.eqb_spec c "+"); subst;
    try reflexivity; discriminate.
Qed.

Lemma py_int_of_str (n : Z) : 0 < n -> py_int_of_string (str n) = Ok n.
Proof.
  intros Hn. destruct n as [|p|p]; try lia.
  destruct (str_positive p) as (E & Hne & Hd & Hu).
  unfold py_int_of_string.
  destruct (str (Zpos p)) as [|c r] eqn:Es; [congruence|].
  destruct (first_digit_not_sign _ c r eq_refl Hd) as [-> ->].
  rewrite Hd, Hu. cbn [option_map]. unfold Z.of_uint.
  now rewrite DecimalPos.Unsigned.of_to.
Qed.

Local Close Scope string_scope.

(** ** Doubles that hold an integer exactly *)

Lemma scaled_exact Q b e :
  0 < b -> e <= 0 ->
  0 < snd (scaled (Q * b) b e)
  /\ fst (scaled (Q * b) b e) = Q * 2 ^ (- e) * snd (scaled (Q * b) b e).
Proof.
  intros Hb He. unfold scaled.
  destruct (Z.leb_spec 0 e) as [H0|H0]; cbn [fst snd].
  - assert (e = 0) as -> by lia. cbn. split; lia.
  - split; [exact Hb|]. ring.
Qed.

Lemma round_ratio_exact q den :
  0 < den -> round_ratio_half_even (q * den) den = q.
Proof.
  intros Hden. unfold round_ratio_half_even.
  rewrite Z_mod_mult, Z_div_mult by lia.
  replace (2 * 0) with 0 by reflexivity.
  destruct den; try lia. reflexivity.
Qed.

(** An integer quotient below [2^53] is represented exactly. *)
Lemma nearest_exact Q b :
  0 < Q < 2 ^ 53 -> 0 < b ->
  exists e, e <= 0 /\ nearest (Q * b) b = Finite (Q * 2 ^ (- e)) e.
Proof.
  intros HQ Hb. unfold nearest.
  destruct (Z.leb_spec (Q * b) 0) as [H|_]; [nia|].
  set (e0 := Z.log2 (Q * b) - Z.log2 b - 53).
  assert (He0 : e0 <= 0).
  { pose proof (Z.log2_mul_above Q b ltac:(lia) ltac:(lia)) as Hm.
    assert (Z.log2 Q < 53) by (apply Z.log2_lt_pow2; lia).
    unfold e0. lia. }
  cbv zeta.
  destruct (scaled_exact Q b e0 Hb He0) as [Hden0 Hnum0].
  rewrite Hnum0, Z_div_mult by lia.
  set (e := if 2 ^ 53 <=? Q * 2 ^ (- e0) then e0 + 1 else e0).
  assert (He : e <= 0).
  { unfold e. destruct (Z.leb_spec (2 ^ 53) (Q * 2 ^ (- e0))); [|exact He0].
    assert (e0 <> 0); [|lia]. intros E. rewrite E in *. cbn in *. lia. }
  destruct (scaled_exact Q b e Hb He) as [Hden Hnum].
  rewrite Hnum, round_ratio_exact by exact Hden.
  exists e. split; [exact He|].
  destruct (Z.leb_spec 0 e) as [H0|H0]; cbn [andb]; [|reflexivity].
  assert (e = 0) as E by lia. rewrite E. cbn [Z.opp].
  rewrite Z.pow_0_r, !Z.mul_1_r.
  destruct (Z.leb_spec (2 ^ 1024) Q) as [Hbig|_]; [|reflexivity].
  assert (2 ^ 53 < 2 ^ 1024) by (apply Z.pow_lt_mono_r; lia). lia.
Qed.

Lemma f64_to_int_exact Q e :
  e <= 0 -> f64_to_int (Finite (Q * 2 ^ (- e)) e) = Some Q.
Proof.
  intros He. cbn [f64_to_int].
  destruct (Z.leb_spec 0 e) as [H0|H0].
  - assert (e = 0) as -> by lia. cbn. f_equal. lia.
  - rewrite Z_div_mult; [reflexivity|].
    apply Z.lt_gt, Z.pow_pos_nonneg; lia.
Qed.

(** Reading the text of [m] as a float, scaling by one million and
    truncating gives [m * 1000000], as long as that is below [2^53]. *)
Lemma float_of_millions (m : Z) :
  0 < m -> m * 1000000 < 2 ^ 53 ->
  exists x,
    py_float_of_string (str m) = Some (false, x)
    /\ f64_to_int (f64_mul x 1000000) = Some (m * 1000000).
Proof.
  intros Hm Hbound. destruct m as [|p|p]; try lia.
  destruct (str_positive p) as (E & Hne & Hd & Hu).
  destruct (nearest_exact (Zpos p) 1 ltac:(lia) ltac:(lia)) as (e & He & Hx).
  rewrite Z.mul_1_r in Hx.
  exists (Finite (Zpos p * 2 ^ (- e)) e). split.
  - unfold py_float_of_string.
    destruct (str (Zpos p)) as [|c r] eqn:Es; [congruence|].
    destruct (first_digit_not_sign _ c r eq_refl Hd) as [-> ->].
    unfold parse_decimal.
    rewrite split_on_absent by (apply digits_lack; [exact Hd | reflexivity]).
    unfold digits_value. rewrite Hd.
    assert (Hv : NilEmpty.uint_of_string (String c r) = Some (Pos.to_uint p)).
    { rewrite E. apply NilEmpty.usu. }
    rewrite Hv. cbn [option_map]. unfold Z.of_uint.
    rewrite DecimalPos.Unsigned.of_to. cbn [Z.of_N Z.of_nat Z.pow].
    now rewrite Hx.
  - cbn [f64_mul].
    assert (Hp : 0 < 2 ^ (- e)) by (apply Z.pow_pos_nonneg; lia).
    destruct (Z.leb_spec 0 e) as [H0|H0].
    + assert (e = 0) as E0 by lia. rewrite E0. cbn [Z.opp].
      rewrite Z.pow_0_r, !Z.mul_1_r.
      destruct (nearest_exact (Zpos p * 1000000) 1 ltac:(lia) ltac:(lia))
        as (e' & He' & Hx').
      rewrite Z.mul_1_r in Hx'. rewrite Hx'. now apply f64_to_int_exact.
    + destruct (nearest_exact (Zpos p * 1000000) (2 ^ (- e)) ltac:(lia) Hp)
        as (e' & He' & Hx').
      replace (Zpos p * 2 ^ (- e) * 1000000)
        with (Zpos p * 1000000 * 2 ^ (- e)) by ring.
      rewrite Hx'. now apply f64_to_int_exact.
Qed.

(** ** Reading back a saved path *)

Lemma endswith_snoc_other s c d :
  endswith (s ++ String c EmptyString)%string d = Ascii.eqb c d.
Proof.
  unfold endswith.
  assert (H : last_char (s ++ String c EmptyString)%string = Some c).
  { induction s as [|x s IH]; [reflexivity|].
    cbn [append last_char].
    destruct (s ++ String c EmptyString)%string eqn:E; [|exact IH].
    destruct s; discriminate. }
  now rewrite H.
Qed.

(** For a mode without underscore or slash, a label without underscore,
    slash or point, and a decay text without slash, the third part of the
    saved name is the label. *)
Lemma read_saved_path mode label eps :
  contains "_" mode = false -> contains "/" mode = false ->
  contains "_" label = false -> contains "/" label = false ->
  contains "." label = false ->
  contains "/" eps = false ->
  read_games_from_filename
    ("CNN_models/cnnrl_" ++ mode ++ "_" ++ label ++ "_" ++ eps ++ ".pt")%string
  = read_label label.
Proof.
  intros Hm1 Hm2 Hl1 Hl2 Hl3 He.
  unfold read_games_from_filename.
  change ("CNN_models/cnnrl_" ++ mode ++ "_" ++ label ++ "_" ++ eps ++ ".pt")%string
    with ("CNN_models"
          ++ String "/" ("cnnrl" ++ String "_" (mode ++ String "_"
               (label ++ String "_" (eps ++ ".pt")))))%string.
  rewrite basename_after_slash.
  rewrite basename_plain.
  2:{ repeat (rewrite contains_app; cbn [contains]).
      rewrite Hm2, Hl2, He. reflexivity. }
  rewrite !replace_pt_sep.
  rewrite (replace_pt_without_dot label Hl3).
  change (replace_pt "cnnrl") with "cnnrl"%string.
  rewrite split_on_sep by reflexivity.
  rewrite split_on_sep by (now apply replace_pt_keeps_absent).
  rewrite split_on_sep by exact Hl1.
  pose proof (split_on_not_nil "_" (replace_pt (eps ++ ".pt"))) as Hne.
  destruct (split_on "_" (replace_pt (eps ++ ".pt"))) as [|p ps]; [congruence|].
  cbn [List.length Nat.ltb Nat.leb nth]. reflexivity.
Qed.

Lemma str_positive_lacks (m : Z) (c : ascii) :
  0 < m -> is_digit c = false -> contains c (str m) = false.
Proof.
  intros Hm Hc. destruct m as [|p|p]; try lia.
  destruct (str_positive p) as (_ & _ & Hd & _). now apply digits_lack.
Qed.

(** C9, as far as it holds. A positive game count whose label is written
    without decimals - below 1000, or a multiple of 1000 below one
    million, or a multiple of one million below [2^53] - is read back
    exactly from the saved path, for every mode without underscore or
    slash and every decay text without slash. *)
Theorem saved_path_reads_back_exact_counts :
  forall (n : Z) (mode eps : string),
    0 < n ->
    n < 1000 \/ (n < 1000000 /\ n mod 1000 = 0)
    \/ (n mod 1000000 = 0 /\ n < 2 ^ 53) ->
    contains "_" mode = false -> contains "/" mode = false ->
    contains "/" eps = false ->
    exists path,
      model_path mode n eps = Ok path
      /\ read_games_from_filename path = Ok n.
Proof.
  intros n mode eps Hn Hcase Hm1 Hm2 He. unfold model_path, format_games.
  destruct (Z.leb_spec 1000000 n) as [Hbig|Hsmall].
  - (* millions *)
    destruct Hcase as [H|[[H _]|[Hmod Hbound]]]; try lia.
    rewrite Hmod, Z.eqb_refl.
    set (m := n / 1000000).
    assert (Hm : 0 < m) by (unfold m; apply Z.div_str_pos; lia).
    assert (Hnm : n = m * 1000000).
    { unfold m. rewrite Z.mul_comm. apply Z.div_exact; lia. }
    eexists. split; [reflexivity|].
    rewrite read_saved_path; try assumption.
    2-4: rewrite contains_app; cbn [contains Ascii.eqb Bool.eqb orb];
         rewrite str_positive_lacks by (exact Hm || reflexivity); reflexivity.
    unfold read_label.
    rewrite !endswith_snoc_other. cbn [Ascii.eqb Bool.eqb andb].
    rewrite drop_last_snoc.
    destruct (float_of_millions m Hm ltac:(lia)) as (x & Hx & Hi).
    rewrite Hx, Hi. now rewrite Hnm.
  - destruct (Z.leb_spec 1000 n) as [Hk|Hlt].
    + (* thousands *)
      destruct Hcase as [H|[[_ Hmod]|[Hmod _]]]; try lia.
      2:{ exfalso. apply Z.mod_divide in Hmod; [|lia].
          destruct Hmod as [k Hk']. lia. }
      rewrite Hmod, Z.eqb_refl.
      set (m := n / 1000).
      assert (Hm : 0 < m) by (unfold m; apply Z.div_str_pos; lia).
      assert (Hnm : n = m * 1000).
      { unfold m. rewrite Z.mul_comm. apply Z.div_exact; lia. }
      eexists. split; [reflexivity|].
      rewrite read_saved_path; try assumption.
      2-4: rewrite contains_app; cbn [contains Ascii.eqb Bool.eqb orb];
           rewrite str_positive_lacks by (exact Hm || reflexivity); reflexivity.
      unfold read_label.
      rewrite endswith_snoc, drop_last_snoc, py_int_of_str by exact Hm.
      now rewrite Hnm.
    + (* below one thousand *)
      eexists. split; [reflexivity|].
      rewrite read_saved_path; try assumption;
        try (apply str_positive_lacks; [exact Hn | reflexivity]).
      unfold read_label.
      destruct n as [|p|p]; try lia.
      destruct (str_positive p) as (_ & _ & Hd & _).
      rewrite !digits_end by (exact Hd || reflexivity).
      now rewrite py_int_of_str.
Qed.

(** A concrete instance for C9: half a million games against the random
    opponent. *)
Lemma saved_path_reads_back_exact_counts_witness :
  exists path,
    model_path "random" 500000 "0.999995" = Ok path
    /\ read_games_from_filename path = Ok 500000.
Proof.
  apply (saved_path_reads_back_exact_counts 500000 "random" "0.999995").
  - lia.
  - right. left. split; [lia | reflexivity].
  - reflexivity.
  - reflexivity.
  - reflexivity.
Defined.

(** C9 as stated fails. For 1500 games the label is [1.5k], and reading
    the saved path raises [ValueError] at [int("1.5")]; for 1234567 games
    the label [1.2M] reads back as 1200000; for 4100000 games the label
    [4.1M] reads back as 4099999; and a mode with an underscore shifts the
    parts, so that 500000 games read back as 0. *)
Lemma saved_path_does_not_read_back :
  model_path "random" 1500 "0.999995"
  = Ok "CNN_models/cnnrl_random_1.5k_0.999995.pt"%string
  /\ read_games_from_filename "CNN_models/cnnrl_random_1.5k_0.999995.pt"
     = Raise ValueError
  /\ model_path "random" 1234567 "0.999995"
     = Ok "CNN_models/cnnrl_random_1.2M_0.999995.pt"%string
  /\ read_games_from_filename "CNN_models/cnnrl_random_1.2M_0.999995.pt"
     = Ok 1200000
  /\ model_path "random" 4100000 "0.999995"
     = Ok "CNN_models/cnnrl_random_4.1M_0.999995.pt"%string
  /\ read_games_from_filename "CNN_models/cnnrl_random_4.1M_0.999995.pt"
     = Ok 4099999
  /\ model_path "self_play" 500000 "0.999995"
     = Ok "CNN_models/cnnrl_self_play_500k_0.999995.pt"%string
  /\ read_games_from_filename "CNN_models/cnnrl_self_play_500k_0.999995.pt"
     = Ok 0.
Proof. vm_compute. repeat split. Qed.

(* ===================================================================== *)
(** * More on the labels of game counts                                   *)
(* ===================================================================== *)

Local Open Scope string_scope.

Lemma all_digits_app a b :
  all_digits (a ++ b) = all_digits a && all_digits b.
Proof.
  induction a as [|c a IH]; [reflexivity|].
  cbn. now rewrite IH, andb_assoc.
Qed.

Lemma append_assoc3 (a b c : string) : (a ++ b) ++ c = a ++ b ++ c.
Proof. induction a as [|x a IH]; cbn; [reflexivity | now rewrite IH]. Qed.

Lemma str_nonneg (n : Z) :
  (0 <= n)%Z -> all_digits (str n) = true /\ str n <> EmptyString.
Proof.
  intros Hn. destruct n as [|p|p]; try lia.
  - split; [reflexivity | discriminate].
  - destruct (str_positive p) as (_ & Hne & Hd & _). now split.
Qed.

Lemma str_negative (p : positive) :
  str (Zneg p) = String "-" (str (Zpos p)).
Proof. reflexivity. Qed.

(** The text of an integer holds digits and at most a minus sign. *)
Lemma str_lacks (n : Z) (c : ascii) :
  is_digit c = false -> Ascii.eqb "-" c = false -> contains c (str n) = false.
Proof.
  intros Hc Hm. destruct n as [|p|p].
  - apply digits_lack; [reflexivity | exact Hc].
  - now apply str_positive_lacks.
  - rewrite str_negative. cbn [contains]. rewrite Hm. cbn [orb].
    now apply str_positive_lacks.
Qed.

Lemma replace_pt_without_p s :
  contains "p" s = false -> replace_pt s = s.
Proof.
  induction s as [|c s IH]; [reflexivity|]. intros H.
  cbn [contains] in H. apply orb_false_elim in H as [Hc Hs].
  cbn [replace_pt]. rewrite (IH Hs).
  destruct (Ascii.eqb c "."); [|reflexivity].
  destruct s as [|c1 [|c2 r2]]; try reflexivity.
  cbn [contains] in Hs. apply orb_false_elim in Hs as [Hc1 _].
  rewrite Hc1. reflexivity.
Qed.

Local Close Scope string_scope.

(** ** Quotients that stay below the integers a double holds *)

Lemma round_ratio_nonneg num den :
  0 <= num -> 0 < den -> 0 <= round_ratio_half_even num den.
Proof.
  intros Hn Hd. unfold round_ratio_half_even.
  pose proof (Z.div_pos num den Hn Hd).
  destruct (2 * (num mod den) ?= den); [destruct (Z.even _)|..]; lia.
Qed.

Lemma scaled_positive a b e :
  0 < a -> 0 < b -> 0 < fst (scaled a b e) /\ 0 < snd (scaled a b e).
Proof.
  intros Ha Hb. unfold scaled.
  destruct (Z.leb_spec 0 e); cbn [fst snd].
  - split; [exact Ha|]. apply Z.mul_pos_pos; [exact Hb|].
    apply Z.pow_pos_nonneg; lia.
  - split; [|exact Hb]. apply Z.mul_pos_pos; [exact Ha|].
    apply Z.pow_pos_nonneg; lia.
Qed.

(** A quotient with fewer than 52 binary digits before the point rounds
    to a double with a negative exponent. *)
Lemma nearest_small a b :
  0 < a -> 0 < b -> Z.log2 a - Z.log2 b < 52 ->
  exists m e, nearest a b = Finite m e /\ e < 0 /\ 0 <= m.
Proof.
  intros Ha Hb Hlog. unfold nearest.
  destruct (Z.leb_spec a 0) as [H|_]; [lia|].
  cbv zeta.
  set (e0 := Z.log2 a - Z.log2 b - 53).
  set (e := if 2 ^ 53 <=? fst (scaled a b e0) / snd (scaled a b e0)
            then e0 + 1 else e0).
  assert (He : e < 0) by (unfold e; destruct (_ <=? _); lia).
  destruct (Z.leb_spec 0 e) as [H0|_]; [lia|]. cbn [andb].
  eexists. eexists. split; [reflexivity|]. split; [exact He|].
  destruct (scaled_positive a b e Ha Hb).
  apply round_ratio_nonneg; lia.
Qed.

Local Open Scope string_scope.

Lemma format_1f_small m e :
  (e < 0)%Z -> (0 <= m)%Z ->
  exists i d,
    format_1f (Finite m e) = Some (i ++ "." ++ d)
    /\ all_digits i = true /\ i <> EmptyString /\ all_digits d = true.
Proof.
  intros He Hm. cbn [format_1f].
  destruct (Z.leb_spec 0 e) as [H0|_]; [lia|].
  set (tenths := round_ratio_half_even (10 * m) (2 ^ (- e))).
  assert (Ht : (0 <= tenths)%Z).
  { apply round_ratio_nonneg; [lia|]. apply Z.pow_pos_nonneg; lia. }
  exists (str (tenths / 10)), (str (tenths mod 10)).
  split; [reflexivity|].
  destruct (str_nonneg (tenths / 10)) as [Hi Hne];
    [apply Z.div_pos; lia|].
  destruct (str_nonneg (tenths mod 10)) as [Hd _];
    [apply Z.mod_pos_bound; lia|].
  now repeat split.
Qed.

(** The label of a count that is not a whole number of thousands (or of
    millions): digits, a point, digits. *)
Lemma decimal_label a b :
  (0 < a)%Z -> (0 < b)%Z -> (Z.log2 a - Z.log2 b < 52)%Z ->
  exists i d,
    format_1f (nearest a b) = Some (i ++ "." ++ d)
    /\ all_digits i = true /\ i <> EmptyString /\ all_digits d = true.
Proof.
  intros Ha Hb Hlog.
  destruct (nearest_small a b Ha Hb Hlog) as (m & e & -> & He & Hm).
  now apply format_1f_small.
Qed.

Lemma decimal_lacks i d c :
  all_digits i = true -> all_digits d = true ->
  is_digit c = false -> Ascii.eqb "." c = false ->
  contains c (i ++ "." ++ d) = false.
Proof.
  intros Hi Hd Hc Hp. rewrite contains_app. cbn [append contains].
  rewrite (digits_lack c i Hi Hc), (digits_lack c d Hd Hc), Hp. reflexivity.
Qed.

Lemma endswith_cons c s x :
  s <> EmptyString -> endswith (String c s) x = endswith s x.
Proof. intros Hs. unfold endswith. cbn [last_char]. now destruct s. Qed.

Lemma str_end (n : Z) (c : ascii) :
  is_digit c = false -> endswith (str n) c = false.
Proof.
  intros Hc. destruct n as [|p|p].
  - apply digits_end; [reflexivity | exact Hc].
  - destruct (str_positive p) as (_ & _ & Hd & _). now apply digits_end.
  - destruct (str_positive p) as (_ & Hne & Hd & _).
    rewrite str_negative, endswith_cons by exact Hne. now apply digits_end.
Qed.



(** ** Reading a saved path, whatever the label *)

Lemma read_games_of_parts filename :
  read_games_from_filename filename
  = let parts := split_on "_" (replace_pt (basename filename)) in
    if (List.length parts <? 4)%nat then Ok 0%Z
    else read_label (nth 2 parts EmptyString).
Proof. reflexivity. Qed.

Lemma read_labelled_path mode label eps :
  contains "_" mode = false -> contains "/" mode = false ->
  contains "_" label = false -> contains "/" label = false ->
  replace_pt label = label ->
  contains "/" eps = false ->
  read_games_from_filename
    ("CNN_models/cnnrl_" ++ mode ++ "_" ++ label ++ "_" ++ eps ++ ".pt")
  = read_label label.
Proof.
  intros Hm1 Hm2 Hl1 Hl2 Hl3 He.
  rewrite read_games_of_parts.
  change ("CNN_models/cnnrl_" ++ mode ++ "_" ++ label ++ "_" ++ eps ++ ".pt")
    with ("CNN_models"
          ++ String "/" ("cnnrl" ++ String "_" (mode ++ String "_"
               (label ++ String "_" (eps ++ ".pt"))))).
  rewrite basename_after_slash.
  rewrite basename_plain.
  2:{ repeat (rewrite contains_app; cbn [contains]).
      rewrite Hm2, Hl2, He. reflexivity. }
  rewrite !replace_pt_sep. rewrite Hl3.
  change (replace_pt "cnnrl") with "cnnrl".
  rewrite split_on_sep by reflexivity.
  rewrite split_on_sep by (now apply replace_pt_keeps_absent).
  rewrite split_on_sep by exact Hl1.
  pose proof (split_on_not_nil "_" (replace_pt (eps ++ ".pt"))) as Hne.
  destruct (split_on "_" (replace_pt (eps ++ ".pt"))) as [|p ps]; [congruence|].
  cbv zeta. cbn [List.length Nat.ltb Nat.leb nth]. reflexivity.
Qed.

Lemma py_int_of_decimal i d :
  all_digits i = true -> i <> EmptyString ->
  py_int_of_string (i ++ "." ++ d) = Raise ValueError.
Proof.
  intros Hi Hne. unfold py_int_of_string.
  destruct i as [|c r]; [congruence|]. cbn [append].
  destruct (first_digit_not_sign _ c r eq_refl Hi) as [-> ->].
  change (String c (r ++ String "." d)) with (String c r ++ String "." d).
  rewrite all_digits_app. cbn [all_digits is_digit]. 
  replace (is_digit "." && all_digits d) with false by reflexivity.
  now rewrite andb_false_r.
Qed.

Lemma odd_label_path :
  forall (mode : string) (n : Z) (eps : string),
    (1000 <= n < 1000000)%Z -> (n mod 1000 <> 0)%Z ->
    contains "_" mode = false -> contains "/" mode = false ->
    contains "/" eps = false ->
    exists path,
      model_path mode n eps = Ok path
      /\ read_games_from_filename path = Raise ValueError.
Proof.
  intros mode n eps Hn Hmod Hm1 Hm2 He. unfold model_path, format_games.
  destruct (Z.leb_spec 1000000 n) as [H|_]; [lia|].
  destruct (Z.leb_spec 1000 n) as [_|H]; [|lia].
  destruct (Z.eqb_spec (n mod 1000) 0) as [H|_]; [contradiction|].
  destruct (decimal_label n 1000) as (i & d & -> & Hi & Hne & Hd);
    [lia | lia | |].
  { assert (Z.log2 n < 20)%Z by (apply Z.log2_lt_pow2; lia).
    change (Z.log2 1000) with 9%Z. lia. }
  eexists. split; [reflexivity|].
  rewrite read_labelled_path; try assumption.
  - unfold read_label.
    rewrite endswith_snoc, drop_last_snoc.
    now rewrite py_int_of_decimal.
  - rewrite contains_app, decimal_lacks by (assumption || reflexivity).
    reflexivity.
  - rewrite contains_app, decimal_lacks by (assumption || reflexivity).
    reflexivity.
  - apply replace_pt_without_p.
    rewrite contains_app, decimal_lacks by (assumption || reflexivity).
    reflexivity.
Qed.

(** X2. A count between one thousand and one million that is not a whole
    number of thousands is saved under a name that cannot be read back:
    the label has a decimal point, and [int] refuses it. *)
Theorem odd_thousands_cannot_be_read_back :
  forall (n : Z) (mode eps : string),
    (1000 <= n < 1000000)%Z -> (n mod 1000 <> 0)%Z ->
    contains "_" mode = false -> contains "/" mode = false ->
    contains "/" eps = false ->
    exists path,
      model_path mode n eps = Ok path
      /\ read_games_from_filename path = Raise ValueError.
Proof. intros n mode eps. apply odd_label_path. Qed.

(** For instance 1500 games against the random opponent. *)
Lemma odd_thousands_cannot_be_read_back_witness :
  exists path,
    model_path "random" 1500 "0.999995" = Ok path
    /\ read_games_from_filename path = Raise ValueError.
Proof.
  apply (odd_thousands_cannot_be_read_back 1500 "random" "0.999995").
  - lia.
  - vm_compute. discriminate.
  - reflexivity.
  - reflexivity.
  - reflexivity.
Defined.

(** X3. The directories of a path play no part in the count read from
    it: what stands before a slash is dropped, whatever it holds. *)
Theorem read_games_ignores_directories :
  forall dir name : string,
    read_games_from_filename (dir ++ "/" ++ name)
    = read_games_from_filename name.
Proof.
  intros dir name. rewrite !read_games_of_parts.
  change (dir ++ "/" ++ name) with (dir ++ String "/" name).
  rewrite basename_after_slash. reflexivity.
Qed.

(** ** Names with too few parts *)

Lemma split_on_length sep s :
  List.length (split_on sep s) = S (count_char sep s).
Proof.
  induction s as [|c s IH]; [reflexivity|].
  cbn [split_on count_char]. destruct (Ascii.eqb c sep).
  - cbn [List.length]. now rewrite IH.
  - destruct (split_on sep s) as [|h t]; cbn [List.length] in *; lia.
Qed.

Lemma count_char_replace_pt_bounded n : forall s,
  (String.length s <= n)%nat ->
  count_char "_" (replace_pt s) = count_char "_" s.
Proof.
  induction n as [|n IH]; intros s Hlen.
  - destruct s; [reflexivity | cbn in Hlen; lia].
  - destruct s as [|c r]; [reflexivity|].
    rewrite replace_pt_step. cbn [String.length] in Hlen.
    destruct (starts_pt (String c r)) eqn:E.
    + destruct r as [|c1 [|c2 r2]]; try discriminate E.
      cbn [starts_pt] in E.
      apply andb_prop in E as [Ec E]. apply andb_prop in E as [E1 E2].
      apply Ascii.eqb_eq in Ec, E1, E2. subst c c1 c2.
      cbn [skip2 count_char]. cbn [String.length] in Hlen.
      rewrite IH by lia. reflexivity.
    + cbn [count_char]. rewrite IH by lia. reflexivity.
Qed.

Lemma count_char_replace_pt s :
  count_char "_" (replace_pt s) = count_char "_" s.
Proof. now apply (count_char_replace_pt_bounded (String.length s)). Qed.

(** X4. A name with fewer than three underscores after its last slash
    reads as zero games: no exception, whatever else the name holds. *)
Theorem short_names_read_as_zero :
  forall filename : string,
    (count_char "_" (basename filename) < 3)%nat ->
    read_games_from_filename filename = Ok 0%Z.
Proof.
  intros filename Hcount. rewrite read_games_of_parts. cbv zeta.
  rewrite split_on_length, count_char_replace_pt.
  destruct (Nat.ltb_spec (S (count_char "_" (basename filename))) 4);
    [reflexivity | lia].
Qed.

Lemma short_names_read_as_zero_witness :
  read_games_from_filename "runs_2024/best_model.pt" = Ok 0%Z.
Proof.
  apply (short_names_read_as_zero "runs_2024/best_model.pt").
  vm_compute. lia.
Defined.

Local Close Scope string_scope.

(* ===================================================================== *)
(** * Facts about the training script                                     *)
(* ===================================================================== *)

Ltac script_unfold H :=
  unfold script_bind, print, logged, script_lift in H;
  cbn [of_outcome app] in H.

Ltac script_call H :=
  match type of H with
  | context [match ?c with Returned _ => _ | Failed _ => _ end] =>
      destruct c eqn:?; [|discriminate H]
  end.





Local Open Scope string_scope.

Lemma choices_are_plain mode :
  In mode mode_choices ->
  contains "_" mode = false /\ contains "/" mode = false.
Proof.
  intros [<-|[<-|[<-|[]]]]; split; reflexivity.
Qed.

(** The label of an exact count, and what is read from it. *)
Lemma exact_label (n : Z) :
  exact_count n ->
  exists label,
    format_games n = Ok label
    /\ contains "_" label = false /\ contains "/" label = false
    /\ replace_pt label = label
    /\ read_label label = Ok n.
Proof.
  intros [Hn Hcase]. unfold format_games.
  destruct (Z.leb_spec 1000000 n) as [Hbig|Hsmall].
  - destruct Hcase as [H|[[H _]|[Hmod Hbound]]]; try lia.
    rewrite Hmod, Z.eqb_refl.
    set (m := (n / 1000000)%Z).
    assert (Hm : (0 < m)%Z) by (unfold m; apply Z.div_str_pos; lia).
    assert (Hnm : n = (m * 1000000)%Z).
    { unfold m. rewrite Z.mul_comm. apply Z.div_exact; lia. }
    eexists. split; [reflexivity|].
    rewrite !contains_app, !str_lacks by reflexivity.
    split; [reflexivity|]. split; [reflexivity|]. split.
    + apply replace_pt_without_p.
      rewrite contains_app, str_lacks by reflexivity. reflexivity.
    + unfold read_label.
      rewrite !endswith_snoc_other. cbn [Ascii.eqb Bool.eqb andb].
      rewrite drop_last_snoc.
      destruct (float_of_millions m Hm ltac:(lia)) as (x & Hx & Hi).
      rewrite Hx, Hi. now rewrite Hnm.
  - destruct (Z.leb_spec 1000 n) as [Hk|Hlt].
    + destruct Hcase as [H|[[_ Hmod]|[Hmod _]]]; try lia.
      2:{ exfalso. apply Z.mod_divide in Hmod; [|lia].
          destruct Hmod as [k Hk']. lia. }
      rewrite Hmod, Z.eqb_refl.
      set (m := (n / 1000)%Z).
      assert (Hm : (0 < m)%Z) by (unfold m; apply Z.div_str_pos; lia).
      assert (Hnm : n = (m * 1000)%Z).
      { unfold m. rewrite Z.mul_comm. apply Z.div_exact; lia. }
      eexists. split; [reflexivity|].
      rewrite !contains_app, !str_lacks by reflexivity.
      split; [reflexivity|]. split; [reflexivity|]. split.
      * apply replace_pt_without_p.
        rewrite contains_app, str_lacks by reflexivity. reflexivity.
      * unfold read_label.
        rewrite endswith_snoc, drop_last_snoc, py_int_of_str by exact Hm.
        now rewrite Hnm.
    + eexists. split; [reflexivity|].
      rewrite !str_lacks by reflexivity.
      split; [reflexivity|]. split; [reflexivity|]. split.
      * apply replace_pt_without_p. now rewrite str_lacks.
      * unfold read_label. rewrite !str_end by reflexivity.
        now rewrite py_int_of_str.
Qed.

Lemma exact_path mode n eps :
  exact_count n ->
  contains "_" mode = false -> contains "/" mode = false ->
  contains "/" eps = false ->
  exists path,
    model_path mode n eps = Ok path
    /\ read_games_from_filename path = Ok n.
Proof.
  intros Hn Hm1 Hm2 He. unfold model_path.
  destruct (exact_label n Hn) as (label & -> & Hl1 & Hl2 & Hl3 & Hread).
  eexists. split; [reflexivity|].
  now rewrite read_labelled_path.
Qed.

Local Close Scope string_scope.




Lemma main_shape :
  forall (F A : Type) (fl : Floats F) (ag : Agent F A)
         (args : arguments) (log : list (event F)),
    arg_resume args = None ->
    main args [] = (Returned tt, log) ->
    exists (rl : A) (path : string),
      let games := match arg_games args with Some g => g | None => 10000 end in
      let rl' := match arg_eps args with
                 | Some e => set_epsilon_decay rl e
                 | None => rl
                 end in
      CNNRLAI 1 None (arg_device args) = Returned rl
      /\ model_path (arg_mode args) games (float_str (epsilon_decay rl'))
         = Ok path
      /\ calls_of log
         = [Constructed 1 None (arg_device args);
            Trained games (arg_mode args); Saved path].
Proof.
  intros F A fl ag args log Hres Hrun.
  unfold main in Hrun. rewrite Hres in Hrun. script_unfold Hrun.
  destruct (CNNRLAI 1 None (arg_device args)) as [rl|f] eqn:Hnew;
    [|discriminate Hrun].
  script_call Hrun.
  match type of Hrun with
  | context [model_path ?m ?g ?e] =>
      destruct (model_path m g e) as [path|e'] eqn:Hpath; [|discriminate Hrun]
  end.
  cbn [of_outcome] in Hrun. script_call Hrun.
  injection Hrun as <-. exists rl, path. cbv zeta.
  split; [reflexivity|]. split; [exact Hpath | reflexivity].
Qed.


(** X8. A plain training run of a count between one thousand and one
    million that is not a whole number of thousands leaves a model that
    cannot be resumed: [train_resumable] on the saved file fails with
    [ValueError] before any agent is built. *)
Theorem odd_run_cannot_be_resumed :
  forall (F A : Type) (fl : Floats F) (ag : Agent F A)
         (args : arguments) (games : Z) (log : list (event F)),
    arg_resume args = None ->
    arg_games args = Some games ->
    1000 <= games < 1000000 -> games mod 1000 <> 0 ->
    In (arg_mode args) mode_choices ->
    (forall x : F, contains "/" (float_str x) = false) ->
    main args [] = (Returned tt, log) ->
    exists saved,
      In (Saved saved) log
      /\ forall target mode decay device,
           fst (train_resumable saved target mode decay device [])
           = Failed (Builtin ValueError)
           /\ calls_of (snd (train_resumable saved target mode decay device []))
              = [].
Proof.
  intros F A fl ag args games log Hres Hgames Hrange Hmod Hmode Hstr Hrun.
  destruct (main_shape F A fl ag args log Hres Hrun)
    as (rl & path & _ & Hpath & Hcalls). cbv zeta in Hpath, Hcalls.
  rewrite Hgames in Hpath, Hcalls.
  destruct (choices_are_plain _ Hmode) as [Hm1 Hm2].
  match type of Hpath with
  | model_path _ _ (float_str ?x) = _ =>
      destruct (odd_label_path (arg_mode args) games (float_str x)
                  Hrange Hmod Hm1 Hm2 (Hstr x)) as (path' & Hpath' & Hback)
  end.
  rewrite Hpath in Hpath'. injection Hpath' as <-.
  exists path. split.
  - assert (Hin : In (Saved path) (calls_of log)).
    { rewrite Hcalls. cbn. tauto. }
    unfold calls_of in Hin. now apply filter_In in Hin.
  - intros target mode decay device. unfold train_resumable.
    unfold script_bind, print, logged, script_lift.
    rewrite Hback. split; reflexivity.
Qed.


(** A run of 1500 games against the heuristic opponent. *)
Lemma odd_run_cannot_be_resumed_witness :
  exists saved,
    In (Saved saved)
       (snd (main (floats := dry_floats) (agent := dry_agent)
               (mk_arguments "heuristic" (Some 1500) None None None None) []))
    /\ forall target mode decay device,
         fst (train_resumable (floats := dry_floats) (agent := dry_agent)
                saved target mode decay device [])
         = Failed (Builtin ValueError)
         /\ calls_of (snd (train_resumable (floats := dry_floats)
                             (agent := dry_agent)
                             saved target mode decay device []))
            = [].
Proof.
  apply (odd_run_cannot_be_resumed unit unit dry_floats dry_agent
           (mk_arguments "heuristic" (Some 1500) None None None None) 1500).
  - reflexivity.
  - reflexivity.
  - lia.
  - vm_compute. discriminate.
  - cbn. tauto.
  - intros x. reflexivity.
  - vm_compute. reflexivity.
Defined.

(* ===================================================================== *)
(** * More on the benchmark harness                                       *)
(* ===================================================================== *)

(** ** Random draws consumed by [generate_boards] *)

Lemma sample_step_budget g r :
  draws (snd (sample_step g r)) = draws r
  /\ (drawn r <= drawn (snd (sample_step g r)) <= drawn r + 2)%nat.
Proof.
  unfold sample_step. destruct (game_over g); [cbn; split; [reflexivity | lia]|].
  cbn [randint].
  destruct (game_is_valid_move g _); cbn; split; try reflexivity; lia.
Qed.

Lemma sample_loop_budget k : forall g r,
  draws (snd (sample_loop k g r)) = draws r
  /\ (drawn r <= drawn (snd (sample_loop k g r)) <= drawn r + 2 * k)%nat.
Proof.
  induction k as [|k IH]; intros g r; cbn [sample_loop].
  - cbn. split; [reflexivity | lia].
  - pose proof (sample_step_budget g r) as [Hd Hn].
    destruct (sample_step g r) as [g' r']. cbn [snd] in *.
    destruct (IH g' r') as [Hd' Hn']. split; [congruence | lia].
Qed.

Lemma sample_budget r :
  draws (snd (sample r)) = draws r
  /\ (drawn r + 1 <= drawn (snd (sample r)) <= drawn r + 31)%nat.
Proof.
  unfold sample. pose proof (randint_range 8 15 r ltac:(lia)) as Hk.
  destruct (randint 8 15 r) as [k r1] eqn:E. cbn [fst] in Hk.
  assert (Hr1 : draws r1 = draws r /\ drawn r1 = S (drawn r)).
  { cbn [randint] in E. injection E as _ <-. split; reflexivity. }
  pose proof (sample_loop_budget (Z.to_nat k) new_game r1) as [Hd Hn].
  destruct (sample_loop (Z.to_nat k) new_game r1) as [g r2]. cbn [snd] in *.
  destruct Hr1 as [Hd1 Hn1]. split; [congruence | lia].
Qed.

Lemma generate_boards_loop_budget n : forall boards r,
  draws (snd (generate_boards_loop n boards r)) = draws r
  /\ (drawn r + n <= drawn (snd (generate_boards_loop n boards r))
      <= drawn r + 31 * n)%nat.
Proof.
  induction n as [|n IH]; intros boards r; cbn [generate_boards_loop].
  - cbn. split; [reflexivity | lia].
  - pose proof (sample_budget r) as [Hd Hn].
    destruct (sample r) as [ob r']. cbn [snd] in *.
    destruct (IH (match ob with Some b => boards ++ [b] | None => boards end) r')
      as [Hd' Hn'].
    split; [congruence | lia].
Qed.

(** X9. The randomness [generate_boards(n)] uses. Each of the [n] samples
    draws its number of passes and then at most two columns per pass, so
    the call consumes at least [n] and at most [31 n] random numbers. *)
Theorem generate_boards_draw_budget :
  forall (n : Z) (r : rng),
    draws (snd (generate_boards n r)) = draws r
    /\ (drawn r + Z.to_nat n <= drawn (snd (generate_boards n r))
        <= drawn r + 31 * Z.to_nat n)%nat.
Proof. intros n r. apply generate_boards_loop_budget. Qed.

(** ** A clock that does not advance *)

Section StalledClock.

Variable evaluate : board -> player -> Z.
Variable move_order : list nat.
Variable recursion_limit : nat.

Local Abbreviation run_board :=
  (bench_board evaluate move_order recursion_limit).




End StalledClock.


(* ===================================================================== *)
(** * Facts about the demo menus                                          *)
(* ===================================================================== *)

(** ** Choosing a saved model *)

Lemma choose_loop_returns files : forall lines shown path rest out,
  choose_loop files lines shown = (Returned path, rest, out) ->
  exists file, In file files /\ path = os_path_join "qtables" file.
Proof.
  induction lines as [|line lines IH]; intros shown path rest out H;
    cbn [choose_loop] in H; [discriminate|].
  cbv zeta in H.
  destruct (isdigit (strip line)); [|now apply IH in H].
  destruct (int_of_choice (strip line)) as [k|e]; [|discriminate].
  destruct (Z.leb_spec 1 k) as [H1|_]; cbn [andb] in H; [|now apply IH in H].
  destruct (Z.leb_spec k (Z.of_nat (List.length files))) as [H2|_];
    [|now apply IH in H].
  injection H as <- _ _. eexists. split; [|reflexivity].
  apply nth_In. lia.
Qed.

Lemma show_numbered_run files : forall i c,
  exists shown,
    show_numbered i files c
    = (Returned tt,
       {| stdin := stdin c; listdir := listdir c; answers := answers c;
          answered := answered c; screen := screen c ++ shown |}).
Proof.
  induction files as [|f fs IH]; intros i c.
  - exists []. cbn. rewrite List.app_nil_r. now destruct c.
  - cbn [show_numbered]. unfold demo_bind, show.
    destruct (IH (S i) (put (Shown (str (Z.of_nat i) ++ ". " ++ f)) c))
      as [shown ->].
    eexists. cbn [put stdin listdir answers answered screen].
    rewrite <- List.app_assoc. reflexivity.
Qed.

(** What [choose_qtable] does once the folder is listed. *)
Lemma choose_qtable_run c listing :
  listdir c "qtables"%string = Returned listing ->
  let files := filter (ends_with ".pkl") listing in
  (files = []
   -> fst (choose_qtable c) = Returned None
      /\ stdin (snd (choose_qtable c)) = stdin c)
  /\ (files <> []
      -> exists shown,
           let '(r, rest, out) := choose_loop files (stdin c) shown in
           fst (choose_qtable c)
           = match r with
             | Returned path => Returned (Some path)
             | Failed f => Failed f
             end
           /\ stdin (snd (choose_qtable c)) = rest).
Proof.
  intros Hlist files. unfold choose_qtable, demo_bind, os_listdir.
  rewrite Hlist. fold files. split.
  - intros ->. split; reflexivity.
  - intros Hne. destruct files as [|f fs] eqn:E; [congruence|].
    unfold show.
    match goal with
    | |- context [show_numbered 1 (f :: fs) ?c0] =>
        destruct (show_numbered_run (f :: fs) 1%nat c0) as [shown ->]
    end.
    cbn [put stdin listdir answers answered screen].
    match goal with
    | |- context [choose_loop ?fl ?ls ?sh] =>
        exists sh; destruct (choose_loop fl ls sh) as [[r rest] out]
    end.
    split; reflexivity.
Qed.

(** X11. What [choose_qtable] can return. If the folder holds no file ending
    in [.pkl] it returns [None] without asking; otherwise it never
    returns [None], and a path it returns is [qtables/] followed by one of
    the listed [.pkl] files. *)
Theorem choose_qtable_returns_a_listed_model :
  forall (c : console) (listing : list string),
    listdir c "qtables"%string = Returned listing ->
    (filter (ends_with ".pkl") listing = []
     -> fst (choose_qtable c) = Returned None
        /\ stdin (snd (choose_qtable c)) = stdin c)
    /\ (filter (ends_with ".pkl") listing <> []
        -> fst (choose_qtable c) <> Returned None
           /\ forall path,
                fst (choose_qtable c) = Returned (Some path) ->
                exists file,
                  In file listing /\ ends_with ".pkl" file = true
                  /\ path = os_path_join "qtables" file).
Proof.
  intros c listing Hlist.
  destruct (choose_qtable_run c listing Hlist) as [Hnone Hsome]. split.
  - exact Hnone.
  - intros Hne. destruct (Hsome Hne) as [shown Hrun].
    destruct (choose_loop _ (stdin c) shown) as [[r rest] out] eqn:E.
    destruct Hrun as [-> _]. split.
    + destruct r; discriminate.
    + intros path Hr. destruct r as [p|]; [|discriminate].
      injection Hr as ->.
      destruct (choose_loop_returns _ _ _ _ _ _ E) as (file & Hin & ->).
      apply filter_In in Hin as [Hin Hpkl].
      exists file. now repeat split.
Qed.

Lemma choose_qtable_returns_a_listed_model_witness :
  (filter (ends_with ".pkl") ["notes.txt"; "a.pkl"; "b.pkl"]%string = []
   -> fst (choose_qtable (sample_console ["x"; " 2 "]%string
                            ["notes.txt"; "a.pkl"; "b.pkl"]%string))
      = Returned None
      /\ stdin (snd (choose_qtable (sample_console ["x"; " 2 "]%string
                                     ["notes.txt"; "a.pkl"; "b.pkl"]%string)))
         = stdin (sample_console ["x"; " 2 "]%string
                    ["notes.txt"; "a.pkl"; "b.pkl"]%string))
  /\ (filter (ends_with ".pkl") ["notes.txt"; "a.pkl"; "b.pkl"]%string <> []
      -> fst (choose_qtable (sample_console ["x"; " 2 "]%string
                               ["notes.txt"; "a.pkl"; "b.pkl"]%string))
         <> Returned None
         /\ forall path,
              fst (choose_qtable (sample_console ["x"; " 2 "]%string
                                    ["notes.txt"; "a.pkl"; "b.pkl"]%string))
              = Returned (Some path) ->
              exists file,
                In file ["notes.txt"; "a.pkl"; "b.pkl"]%string
                /\ ends_with ".pkl" file = true
                /\ path = os_path_join "qtables" file).
Proof.
  apply (choose_qtable_returns_a_listed_model
           (sample_console ["x"; " 2 "]%string
              ["notes.txt"; "a.pkl"; "b.pkl"]%string)
           ["notes.txt"; "a.pkl"; "b.pkl"]%string).
  reflexivity.
Defined.

Lemma all_digits_isdigit s : all_digits s = true -> all_isdigit s = true.
Proof.
  induction s as [|c s IH]; [reflexivity|]. cbn [all_digits all_isdigit].
  intros H. apply andb_prop in H as [Hc Hs].
  unfold isdigit_char. now rewrite Hc, (IH Hs).
Qed.

Lemma choose_loop_skips files bad :
  Forall (fun l => isdigit (strip l) = false) bad ->
  forall lines shown,
    choose_loop files (bad ++ lines) shown
    = choose_loop files lines
        (shown ++ flat_map (fun _ => [Asked select_prompt;
                                      Shown invalid_model]) bad).
Proof.
  induction 1 as [|l bad Hl _ IH]; intros lines shown.
  - cbn. now rewrite List.app_nil_r.
  - cbn [app choose_loop flat_map]. cbv zeta. rewrite Hl, IH.
    now rewrite <- !List.app_assoc.
Qed.

Lemma choose_loop_accepts files k file line rest shown :
  nth_error files k = Some file ->
  strip line = str (Z.of_nat (S k)) ->
  (String.length (strip line) <= int_max_str_digits)%nat ->
  choose_loop files (line :: rest) shown
  = (Returned (os_path_join "qtables" file), rest,
     shown ++ [Asked select_prompt]).
Proof.
  intros Hnth Hline Hlen. cbn [choose_loop]. cbv zeta.
  assert (Hk : (k < List.length files)%nat)
    by (apply nth_error_Some; congruence).
  unfold int_of_choice.
  destruct (Nat.ltb_spec int_max_str_digits (String.length (strip line)));
    [lia|].
  rewrite Hline.
  destruct (str_nonneg (Z.of_nat (S k)) ltac:(lia)) as [Hd Hne].
  assert (Hdigit : isdigit (str (Z.of_nat (S k))) = true).
  { unfold isdigit. destruct (str (Z.of_nat (S k))); [congruence|].
    now apply all_digits_isdigit. }
  rewrite Hdigit, py_int_of_str by lia.
  destruct (Z.leb_spec 1 (Z.of_nat (S k))); [|lia].
  destruct (Z.leb_spec (Z.of_nat (S k)) (Z.of_nat (List.length files)));
    [|lia].
  cbn [andb].
  replace (Z.to_nat (Z.of_nat (S k) - 1)) with k by lia.
  now rewrite (nth_error_nth files k EmptyString Hnth).
Qed.

(** X17. Selecting a model. After any number of lines that are not made of
    digits, a line that holds, between blanks, the number shown next to
    a file of the list selects that file: [choose_qtable] returns its
    path and leaves the following lines unread. *)
Theorem choose_qtable_selects_the_typed_number :
  forall (c : console) (listing bad : list string) (line : string)
         (rest : list string) (k : nat) (file : string),
    listdir c "qtables"%string = Returned listing ->
    stdin c = bad ++ line :: rest ->
    Forall (fun l => isdigit (strip l) = false) bad ->
    nth_error (filter (ends_with ".pkl") listing) k = Some file ->
    strip line = str (Z.of_nat (S k)) ->
    (String.length (strip line) <= int_max_str_digits)%nat ->
    fst (choose_qtable c) = Returned (Some (os_path_join "qtables" file))
    /\ stdin (snd (choose_qtable c)) = rest.
Proof.
  intros c listing bad line rest k file Hlist Hin Hbad Hnth Hline Hlen.
  destruct (choose_qtable_run c listing Hlist) as [_ Hsome].
  destruct Hsome as [shown Hrun].
  { intros E. rewrite E in Hnth. destruct k; discriminate. }
  rewrite Hin, (choose_loop_skips _ bad Hbad) in Hrun.
  rewrite (choose_loop_accepts _ k file line rest _ Hnth Hline Hlen) in Hrun.
  exact Hrun.
Qed.

Lemma choose_qtable_selects_the_typed_number_witness :
  fst (choose_qtable (sample_console ["x"; ""; " 2 "; "1"]%string
                        ["notes.txt"; "a.pkl"; "b.pkl"]%string))
  = Returned (Some (os_path_join "qtables" "b.pkl"))
  /\ stdin (snd (choose_qtable (sample_console ["x"; ""; " 2 "; "1"]%string
                                 ["notes.txt"; "a.pkl"; "b.pkl"]%string)))
     = ["1"]%string.
Proof.
  apply (choose_qtable_selects_the_typed_number
           (sample_console ["x"; ""; " 2 "; "1"]%string
              ["notes.txt"; "a.pkl"; "b.pkl"]%string)
           ["notes.txt"; "a.pkl"; "b.pkl"]%string
           ["x"; ""]%string " 2 "%string ["1"]%string 1%nat "b.pkl"%string).
  - reflexivity.
  - reflexivity.
  - repeat constructor.
  - reflexivity.
  - reflexivity.
  - vm_compute. lia.
Defined.

(** ** The menu of opponents *)

Local Open Scope string_scope.

Lemma play_game_run p1 p2 c :
  In (GameMade p1 p2) (screen (snd (play_game p1 p2 c)))
  /\ stdin (snd (play_game p1 p2 c)) = stdin c
  /\ (answers c (answered c) = Returned tt ->
      In GameRun (screen (snd (play_game p1 p2 c)))).
Proof.
  unfold play_game, demo_bind, external.
  destruct (answers c (answered c)) as [[]|f];
    cbn [snd screen stdin]; (split; [|split]);
    try reflexivity; try discriminate;
    try (intros _); rewrite ?in_app_iff; cbn; tauto.
Qed.

Lemma human_vs_ai_other_choice c line rest :
  stdin c = line :: rest ->
  String.eqb (strip line) "1" = false ->
  String.eqb (strip line) "2" = false ->
  String.eqb (strip line) "3" = false ->
  String.eqb (strip line) "4" = false ->
  In (GameMade None None) (screen (snd (human_vs_ai c)))
  /\ stdin (snd (human_vs_ai c)) = rest
  /\ (answers c (answered c) = Returned tt ->
      In GameRun (screen (snd (human_vs_ai c)))).
Proof.
  intros Hin H1 H2 H3 H4.
  unfold human_vs_ai, demo_bind, show, input.
  cbn [put stdin listdir answers answered screen]. rewrite Hin.
  rewrite H1, H2, H3, H4.
  destruct (String.eqb (strip line) "5");
    unfold demo_bind, show;
    match goal with
    | |- context [play_game None None ?c0] =>
        destruct (play_game_run None None c0) as (Hmade & Hstdin & Hrun)
    end;
    (split; [exact Hmade | split; [exact Hstdin | exact Hrun]]).
Qed.

(** X12. The menu of opponents has no way out. Whatever is typed other than
    1, 2, 3 or 4 - the entry [5. Exit] included - a game is built with no
    opponent for the second seat, and run if building it succeeds. *)
Theorem human_vs_ai_exit_starts_a_game :
  forall (c : console) (line : string) (rest : list string),
    stdin c = line :: rest ->
    ~ In (strip line) ["1"; "2"; "3"; "4"] ->
    In (GameMade None None) (screen (snd (human_vs_ai c)))
    /\ stdin (snd (human_vs_ai c)) = rest
    /\ (answers c (answered c) = Returned tt ->
        In GameRun (screen (snd (human_vs_ai c)))).
Proof.
  intros c line rest Hin Hnot.
  apply (human_vs_ai_other_choice c line rest Hin);
    apply String.eqb_neq; intros E; apply Hnot; rewrite E; cbn; tauto.
Qed.

Lemma human_vs_ai_exit_starts_a_game_witness :
  In (GameMade None None)
     (screen (snd (human_vs_ai (sample_console [" 5 "; "4"] []))))
  /\ stdin (snd (human_vs_ai (sample_console [" 5 "; "4"] []))) = ["4"]
  /\ (answers (sample_console [" 5 "; "4"] [])
              (answered (sample_console [" 5 "; "4"] [])) = Returned tt ->
      In GameRun (screen (snd (human_vs_ai (sample_console [" 5 "; "4"] []))))).
Proof.
  apply (human_vs_ai_exit_starts_a_game (sample_console [" 5 "; "4"] [])
           " 5 " ["4"]).
  - reflexivity.
  - vm_compute. intros [H|[H|[H|[H|[]]]]]; discriminate H.
Defined.

Local Close Scope string_scope.

(** ** The main menu *)





Lemma main_pass_without_input c :
  stdin c = [] ->
  exists c', main_pass c = (Returned false, c') /\ stdin c' = [].
Proof.
  intros Hin. unfold main_pass, demo_bind, input. rewrite Hin.
  cbn [is_exception]. eexists. split; [reflexivity|]. exact Hin.
Qed.

Lemma main_loop_without_input passes : forall c,
  stdin c = [] -> fst (main_loop passes c) = None.
Proof.
  induction passes as [|passes IH]; intros c Hin; [reflexivity|].
  cbn [main_loop].
  destruct (main_pass_without_input c Hin) as (c' & -> & Hin').
  now apply IH.
Qed.

(** X14. The end of the input does not end the demo. Once no line is left,
    [input] raises [EOFError] in every pass, the loop of [main] catches it
    and goes on: after any number of passes the demo is still running. *)
Theorem demo_main_spins_at_end_of_input :
  forall (passes : nat) (c : console),
    stdin c = [] -> fst (demo_main passes c) = None.
Proof.
  intros passes c Hin. unfold demo_main, demo_bind, show.
  now apply main_loop_without_input.
Qed.

Lemma demo_main_spins_at_end_of_input_witness :
  fst (demo_main 50 (sample_console [] [])) = None.
Proof.
  apply (demo_main_spins_at_end_of_input 50 (sample_console [] [])).
  reflexivity.
Defined.

Local Open Scope string_scope.

Lemma human_vs_ai_unfinished c line rest :
  stdin c = line :: rest ->
  strip line = "1" \/ strip line = "2" ->
  fst (human_vs_ai c) = Failed SystemExit.
Proof.
  intros Hin Hchoice.
  unfold human_vs_ai, demo_bind, show, input, exit.
  cbn [put stdin listdir answers answered screen]. rewrite Hin.
  destruct Hchoice as [-> | ->]; reflexivity.
Qed.

(** X15. The two opponents that are not implemented end the whole demo. If
    2 is typed in the main menu and then 1 or 2 in the menu of opponents,
    [exit()] is called and the loop of [main] does not catch it. *)
Theorem unfinished_opponents_end_the_demo :
  forall (passes : nat) (c : console) (first second : string)
         (rest : list string),
    stdin c = first :: second :: rest ->
    strip first = "2" ->
    strip second = "1" \/ strip second = "2" ->
    fst (demo_main (S passes) c) = Some (Failed SystemExit).
Proof.
  intros passes c first second rest Hin H1 H2.
  unfold demo_main, demo_bind, show. cbn [main_loop].
  unfold main_pass, demo_bind at 1, input.
  cbn [put stdin listdir answers answered screen]. rewrite Hin, H1.
  cbn [String.eqb Ascii.eqb Bool.eqb andb].
  unfold demo_bind at 1.
  match goal with
  | |- context [human_vs_ai ?c0] =>
      pose proof (human_vs_ai_unfinished c0 second rest eq_refl H2) as Hexit;
      destruct (human_vs_ai c0) as [[[]|f] c1]; cbn [fst] in Hexit;
      [discriminate | injection Hexit as ->]
  end.
  reflexivity.
Qed.

Lemma unfinished_opponents_end_the_demo_witness :
  fst (demo_main 1 (sample_console [" 2"; "1 "; "4"] []))
  = Some (Failed SystemExit).
Proof.
  apply (unfinished_opponents_end_the_demo 0
           (sample_console [" 2"; "1 "; "4"] []) " 2" "1 " ["4"]).
  - reflexivity.
  - reflexivity.
  - left. reflexivity.
Defined.

Local Close Scope string_scope.

(* ===================================================================== *)
(** * Counts in the millions: how far the name is from the count          *)
(* ===================================================================== *)

(** ** Rounding *)

Lemma round_ratio_spec num den :
  0 <= num -> 0 < den ->
  - den <= 2 * (round_ratio_half_even num den * den - num) <= den.
Proof.
  intros Hn Hd. unfold round_ratio_half_even.
  pose proof (Z.div_mod num den ltac:(lia)) as Hdm.
  pose proof (Z.mod_pos_bound num den Hd) as Hr.
  set (d := num / den) in *. set (r := num mod den) in *.
  destruct (Z.compare_spec (2 * r) den) as [E|L|G];
    [destruct (Z.even d)|..]; nia.
Qed.

(** The double nearest to a quotient below [2^52]: its mantissa is within
    half a unit of the scaled quotient, and the scale leaves at least 52
    binary digits before the point. *)
Lemma nearest_spec a b :
  0 < a -> 0 < b -> Z.log2 a - Z.log2 b < 52 ->
  exists m e,
    nearest a b = Finite m e /\ e < 0 /\ 0 <= m
    /\ - b <= 2 * (m * b - a * 2 ^ (- e)) <= b
    /\ 2 ^ 52 * b <= a * 2 ^ (- e).
Proof.
  intros Ha Hb Hlog. unfold nearest.
  destruct (Z.leb_spec a 0) as [H|_]; [lia|].
  cbv zeta.
  set (e0 := Z.log2 a - Z.log2 b - 53).
  assert (He0 : e0 < -1) by (unfold e0; lia).
  assert (Hscaled : forall e, e < 0 -> scaled a b e = (a * 2 ^ (- e), b)).
  { intros e He. unfold scaled. destruct (Z.leb_spec 0 e); [lia | reflexivity]. }
  rewrite (Hscaled e0) by lia. cbn [fst snd].
  assert (Hbig : 2 ^ 52 * b < a * 2 ^ (- e0)).
  { pose proof (Z.log2_spec a Ha) as [Hla _].
    pose proof (Z.log2_spec b Hb) as [_ Hlb].
    pose proof (Z.log2_nonneg a). pose proof (Z.log2_nonneg b).
    replace (- e0) with (53 + Z.log2 b - Z.log2 a) by (unfold e0; lia).
    assert (E : 2 ^ Z.log2 a * 2 ^ (53 + Z.log2 b - Z.log2 a)
                = 2 ^ 52 * 2 ^ Z.succ (Z.log2 b)).
    { rewrite <- !Z.pow_add_r by lia. f_equal. lia. }
    assert (0 < 2 ^ (53 + Z.log2 b - Z.log2 a))
      by (apply Z.pow_pos_nonneg; lia).
    nia. }
  set (e := if 2 ^ 53 <=? a * 2 ^ (- e0) / b then e0 + 1 else e0).
  assert (He : e < 0) by (unfold e; destruct (_ <=? _); lia).
  assert (Hscale : 2 ^ 52 * b <= a * 2 ^ (- e)).
  { unfold e. destruct (Z.leb_spec (2 ^ 53) (a * 2 ^ (- e0) / b)) as [Hq|_];
      [|lia].
    assert (Hdiv : 2 ^ 53 * b <= a * 2 ^ (- e0)).
    { pose proof (Z.mul_div_le (a * 2 ^ (- e0)) b Hb). nia. }
    replace (- e0) with (Z.succ (- (e0 + 1))) in Hdiv by lia.
    rewrite Z.pow_succ_r in Hdiv by lia.
    change (2 ^ 53) with (2 * 2 ^ 52) in Hdiv. lia. }
  rewrite (Hscaled e He). cbn [fst snd].
  destruct (Z.leb_spec 0 e) as [H0|_]; [lia|]. cbn [andb].
  assert (Hpow : 0 < 2 ^ (- e)) by (apply Z.pow_pos_nonneg; lia).
  eexists. eexists. split; [reflexivity|]. split; [exact He|].
  split; [apply round_ratio_nonneg; nia|].
  split; [apply round_ratio_spec; nia | exact Hscale].
Qed.

(** ** The label of a count in the millions *)

(** The tenths of millions the label shows are within half a tenth of the
    count. *)
Lemma millions_tenths n :
  1000000 <= n < 10 ^ 15 ->
  exists T,
    format_1f (nearest n 1000000)
    = Some (str (T / 10) ++ "." ++ str (T mod 10))%string
    /\ 10 <= T <= 10 ^ 10
    /\ - 50000 <= T * 100000 - n <= 50000.
Proof.
  intros Hn.
  assert (Hlog : Z.log2 n < 50) by (apply Z.log2_lt_pow2; lia).
  destruct (nearest_spec n 1000000) as (m & e & -> & He & Hm & Hround & Hscale);
    [lia | lia | change (Z.log2 1000000) with 19; lia |].
  cbn [format_1f]. destruct (Z.leb_spec 0 e) as [H0|_]; [lia|].
  set (E := 2 ^ (- e)) in *.
  assert (HE : 0 < E) by (apply Z.pow_pos_nonneg; lia).
  set (T := round_ratio_half_even (10 * m) E).
  pose proof (round_ratio_spec (10 * m) E ltac:(lia) HE) as HT. fold T in HT.
  exists T. split; [reflexivity|].
  assert (Hbig : 4000000 < E).
  { assert (2 ^ 52 * 1000000 < 10 ^ 15 * E) by nia.
    change (2 ^ 52) with 4503599627370496 in *.
    change (10 ^ 15) with 1000000000000000 in *. lia. }
  assert (Hclose : - 50000 <= T * 100000 - n <= 50000).
  { assert (H1 : - (100000 * E + 1000000)
                 <= 2 * E * (T * 100000 - n)
                 <= 100000 * E + 1000000) by nia.
    split.
    - assert (- 100001 * E < 2 * E * (T * 100000 - n)) by nia.
      assert (- 100001 < 2 * (T * 100000 - n)) by nia. lia.
    - assert (2 * E * (T * 100000 - n) < 100001 * E) by nia.
      assert (2 * (T * 100000 - n) < 100001) by nia. lia. }
  split; [|exact Hclose].
  change (10 ^ 15) with 1000000000000000 in *.
  change (10 ^ 10) with 10000000000. lia.
Qed.

(** ** Reading the decimal text back *)

Lemma string_of_uint_append a b :
  NilEmpty.string_of_uint (uint_append a b)
  = (NilEmpty.string_of_uint a ++ NilEmpty.string_of_uint b)%string.
Proof. induction a; cbn; congruence. Qed.

Lemma revapp_append a : forall b acc,
  Decimal.revapp (uint_append a b) acc
  = Decimal.revapp b (Decimal.revapp a acc).
Proof. induction a; intros b acc; cbn; auto. Qed.

Lemma of_uint_as_lu d : Pos.of_uint d = DecimalPos.Unsigned.of_lu (Decimal.rev d).
Proof.
  rewrite <- (DecimalFacts.rev_rev d) at 1.
  apply DecimalPos.Unsigned.of_lu_rev.
Qed.

Lemma of_uint_append a b :
  Pos.of_uint (uint_append a b)
  = (Pos.of_uint b + Pos.of_uint a * 10 ^ DecimalPos.Unsigned.usize b)%N.
Proof.
  rewrite !of_uint_as_lu. unfold Decimal.rev at 1.
  rewrite revapp_append. fold (Decimal.rev a).
  apply DecimalPos.Unsigned.of_lu_revapp.
Qed.

Lemma str_uint (q : Z) :
  0 <= q ->
  exists u, str q = NilEmpty.string_of_uint u /\ Z.of_N (Pos.of_uint u) = q.
Proof.
  intros Hq. destruct q as [|p|p]; try lia.
  - exists (Decimal.D0 Decimal.Nil). split; reflexivity.
  - destruct (str_positive p) as (E & _).
    exists (Pos.to_uint p). split; [exact E|].
    now rewrite DecimalPos.Unsigned.of_to.
Qed.

Lemma str_digit (r : Z) :
  0 <= r < 10 ->
  exists u,
    str r = NilEmpty.string_of_uint u /\ Z.of_N (Pos.of_uint u) = r
    /\ DecimalPos.Unsigned.usize u = 1%N /\ String.length (str r) = 1%nat.
Proof.
  intros Hr.
  assert (H : r = 0 \/ r = 1 \/ r = 2 \/ r = 3 \/ r = 4 \/ r = 5 \/ r = 6
              \/ r = 7 \/ r = 8 \/ r = 9) by lia.
  repeat (destruct H as [-> | H]); try subst r;
    first [ exists (Decimal.D0 Decimal.Nil); now repeat split
          | exists (Decimal.D1 Decimal.Nil); now repeat split
          | exists (Decimal.D2 Decimal.Nil); now repeat split
          | exists (Decimal.D3 Decimal.Nil); now repeat split
          | exists (Decimal.D4 Decimal.Nil); now repeat split
          | exists (Decimal.D5 Decimal.Nil); now repeat split
          | exists (Decimal.D6 Decimal.Nil); now repeat split
          | exists (Decimal.D7 Decimal.Nil); now repeat split
          | exists (Decimal.D8 Decimal.Nil); now repeat split
          | exists (Decimal.D9 Decimal.Nil); now repeat split ].
Qed.

(** The digits before and after the point, read as one integer. *)
Lemma digits_value_of_tenths (T : Z) :
  0 <= T ->
  digits_value (str (T / 10) ++ str (T mod 10)) = Some T
  /\ String.length (str (T mod 10)) = 1%nat.
Proof.
  intros HT.
  assert (Hq : 0 <= T / 10) by (apply Z.div_pos; lia).
  assert (Hr : 0 <= T mod 10 < 10) by (apply Z.mod_pos_bound; lia).
  destruct (str_uint (T / 10) Hq) as (uq & Eq & Vq).
  destruct (str_digit (T mod 10) Hr) as (ur & Er & Vr & Sr & Lr).
  split; [|exact Lr].
  unfold digits_value.
  rewrite all_digits_app.
  destruct (str_nonneg (T / 10) Hq) as [-> _].
  destruct (str_nonneg (T mod 10) ltac:(lia)) as [-> _]. cbn [andb].
  rewrite Eq, Er, <- string_of_uint_append, NilEmpty.usu.
  cbn [option_map]. unfold Z.of_uint. rewrite of_uint_append, Sr.
  f_equal. rewrite N2Z.inj_add, N2Z.inj_mul, Vq, Vr.
  change (Z.of_N (10 ^ 1)) with 10.
  pose proof (Z.div_mod T 10 ltac:(lia)). lia.
Qed.

Local Open Scope string_scope.

Lemma py_float_of_tenths (T : Z) :
  (10 <= T)%Z ->
  py_float_of_string (str (T / 10) ++ "." ++ str (T mod 10))
  = Some (false, nearest T 10).
Proof.
  intros HT.
  assert (Hq : (0 < T / 10)%Z) by (apply Z.div_str_pos; lia).
  assert (Hr : (0 <= T mod 10 < 10)%Z) by (apply Z.mod_pos_bound; lia).
  destruct (str_nonneg (T / 10) ltac:(lia)) as [Hi Hne].
  destruct (str_nonneg (T mod 10) ltac:(lia)) as [Hd _].
  destruct (digits_value_of_tenths T ltac:(lia)) as [Hval Hlen].
  unfold py_float_of_string.
  destruct (str (T / 10)) as [|c r] eqn:Ei; [congruence|].
  cbn [append].
  destruct (first_digit_not_sign _ c r eq_refl Hi) as [-> ->].
  change (String c (r ++ String "." (str (T mod 10))))
    with (String c r ++ String "." (str (T mod 10))).
  unfold parse_decimal.
  rewrite split_on_sep by (apply digits_lack; [exact Hi | reflexivity]).
  rewrite split_on_absent by (apply digits_lack; [exact Hd | reflexivity]).
  cbn [append] in Hval |- *. rewrite Hval. cbn [option_map].
  rewrite Hlen. reflexivity.
Qed.

Local Close Scope string_scope.

(** ** Back to a count *)

(** Reading the tenths as a float, scaling by one million and truncating
    loses at most one game. *)
Lemma count_of_tenths T :
  10 <= T <= 10 ^ 10 ->
  exists m,
    f64_to_int (f64_mul (nearest T 10) 1000000) = Some m
    /\ T * 100000 - 1 <= m <= T * 100000.
Proof.
  intros HT. change (10 ^ 10) with 10000000000 in HT.
  assert (Hlog : Z.log2 T < 37) by (apply Z.log2_lt_pow2; lia).
  destruct (nearest_spec T 10) as (my & ey & -> & Hey & Hmy & Hy & Hys);
    [lia | lia | change (Z.log2 10) with 3; lia |].
  cbn [f64_mul]. destruct (Z.leb_spec 0 ey) as [H0|_]; [lia|].
  set (Ey := 2 ^ (- ey)) in *.
  assert (HEy : 4000000 < Ey).
  { change (2 ^ 52) with 4503599627370496 in Hys. nia. }
  assert (Hmy' : 0 < my) by nia.
  assert (Hlog2 : Z.log2 (my * 1000000) - Z.log2 Ey < 52).
  { unfold Ey. rewrite Z.log2_pow2 by lia.
    assert (Z.log2 (my * 1000000) < 51 - ey); [|lia].
    apply Z.log2_lt_pow2; [lia|].
    replace (51 - ey) with (51 + - ey) by lia.
    rewrite Z.pow_add_r by lia. fold Ey.
    change (2 ^ 51) with 2251799813685248. nia. }
  destruct (nearest_spec (my * 1000000) Ey)
    as (mz & ez & -> & Hez & Hmz & Hz & _); [lia | lia | exact Hlog2 |].
  cbn [f64_to_int]. destruct (Z.leb_spec 0 ez) as [H0|_]; [lia|].
  set (Ez := 2 ^ (- ez)) in *.
  assert (HEz : 0 < Ez) by (apply Z.pow_pos_nonneg; lia).
  eexists. split; [reflexivity|].
  set (V := T * 100000).
  assert (Hup : mz < (V + 1) * Ez).
  { assert (2 * my * 1000000 <= 2 * V * Ey + 1000000) by (unfold V; lia).
    assert (2 * my * 1000000 * Ez <= (2 * V * Ey + 1000000) * Ez) by nia.
    assert (2 * mz * Ey <= (2 * V * Ey + 1000000) * Ez + Ey) by lia.
    assert (1000000 * Ez + Ey < 2 * Ey * Ez) by nia.
    assert (2 * mz * Ey < 2 * (V + 1) * Ez * Ey) by nia.
    nia. }
  assert (Hlow : (V - 1) * Ez <= mz).
  { assert (2 * V * Ey - 1000000 <= 2 * my * 1000000) by (unfold V; lia).
    assert ((2 * V * Ey - 1000000) * Ez <= 2 * my * 1000000 * Ez) by nia.
    assert ((2 * V * Ey - 1000000) * Ez - Ey <= 2 * mz * Ey) by lia.
    assert (1000000 * Ez + Ey < 2 * Ey * Ez) by nia.
    assert (2 * (V - 1) * Ez * Ey < 2 * mz * Ey) by nia.
    nia. }
  split.
  - replace (V - 1) with ((V - 1) * Ez / Ez)
      by (apply Z.div_mul; lia).
    apply Z.div_le_mono; lia.
  - assert (mz / Ez < V + 1); [|lia].
    apply Z.div_lt_upper_bound; lia.
Qed.

Local Open Scope string_scope.

(** X16. Counts in the millions. From one million up to [10^15] games the
    saved name can always be read back, and the count read differs from
    the count trained by at most 50001 games: the label keeps one decimal
    of the millions, and reading it through a float can lose one more
    game. *)
Theorem millions_read_back_within_50001 :
  forall (n : Z) (mode eps : string),
    (1000000 <= n < 10 ^ 15)%Z ->
    contains "_" mode = false -> contains "/" mode = false ->
    contains "/" eps = false ->
    exists path m,
      model_path mode n eps = Ok path
      /\ read_games_from_filename path = Ok m
      /\ (- 50001 <= m - n <= 50000)%Z.
Proof.
  intros n mode eps Hn Hm1 Hm2 He.
  destruct (Z.eqb_spec (n mod 1000000) 0) as [Hmod|Hmod].
  - destruct (exact_path mode n eps) as (path & Hpath & Hback);
      try assumption.
    { split; [lia|]. right. right. split; [exact Hmod|].
      change (10 ^ 15)%Z with 1000000000000000%Z in Hn.
      change (2 ^ 53)%Z with 9007199254740992%Z. lia. }
    exists path, n. split; [exact Hpath|]. split; [exact Hback | lia].
  - unfold model_path, format_games.
    destruct (Z.leb_spec 1000000 n) as [_|H]; [|lia].
    destruct (Z.eqb_spec (n mod 1000000) 0) as [H|_]; [contradiction|].
    destruct (millions_tenths n Hn) as (T & -> & HT & Hclose).
    destruct (count_of_tenths T HT) as (m & Hm & Hnear).
    destruct (str_nonneg (T / 10)) as [Hi Hne]; [apply Z.div_pos; lia|].
    destruct (str_nonneg (T mod 10)) as [Hd _];
      [apply Z.mod_pos_bound; lia|].
    eexists. exists m. split; [reflexivity|].
    rewrite read_labelled_path; try assumption.
    + split; [|lia]. unfold read_label.
      rewrite !endswith_snoc_other. cbn [Ascii.eqb Bool.eqb andb].
      rewrite drop_last_snoc, py_float_of_tenths by lia.
      now rewrite Hm.
    + rewrite contains_app, decimal_lacks by (assumption || reflexivity).
      reflexivity.
    + rewrite contains_app, decimal_lacks by (assumption || reflexivity).
      reflexivity.
    + apply replace_pt_without_p.
      rewrite contains_app, decimal_lacks by (assumption || reflexivity).
      reflexivity.
Qed.

(** For instance 4100000 games, read back as 4099999. *)
Lemma millions_read_back_within_50001_witness :
  exists path m,
    model_path "random" 4100000 "0.999995" = Ok path
    /\ read_games_from_filename path = Ok m
    /\ (- 50001 <= m - 4100000 <= 50000)%Z.
Proof.
  apply (millions_read_back_within_50001 4100000 "random" "0.999995").
  - split; [lia | reflexivity].
  - reflexivity.
  - reflexivity.
  - reflexivity.
Defined.

Local Close Scope string_scope.
